(** * WUG simulation: annotated graph, correlation clustering, stopping
      criteria and the simulation loop

    A shallow embedding of the core of the word-usage-graph simulation
    (graphs/annotated_graph.py,
    simulation/clustering/utils/new_cluster_correlation_search.py,
    simulation/clustering_strategy.py,
    simulation/stopping/stopping_criterion.py,
    simulation/stopping/adv_stopping_criterion.py,
    simulation/stopping/utils/stopping_utils.py, simulation/simulation.py,
    simulation/sampling/sampling_strategy.py,
    simulation/sampling/utils/dwug_sampling.py)
    together with the properties of its specification and further
    properties of the code.

    Conventions.
    - Python floats are modelled as exact rationals ([Qc]) extended with
      [NaN]; rounding error is outside the model.
    - Python dicts whose iteration order is observable are association
      lists in insertion order; the edge tables, only ever read by key, are
      [gmap]s.
    - Python sets are duplicate-free lists; their iteration order is an
      artefact of the model. *)

From Stdlib Require Import ZArith QArith Qcanon Qcabs Qround Lia.
From stdpp Require Import gmap list sorting strings.

Close Scope Q_scope.
Close Scope Qc_scope.
Local Open Scope Z_scope.
Set Warnings "-clear-no-such-hyp,-register-all".

(** ** Python and numpy primitives *)

Module Py.

(** A Python float: a number or NaN. *)
Inductive float : Type :=
| NaN
| Num (q : Qc).

Definition isnan (x : float) : bool :=
  match x with NaN => true | Num _ => false end.

(** [x != 0]: NaN compares unequal to everything. *)
Definition ne_zero (x : float) : bool :=
  match x with
  | NaN => true
  | Num q => negb (Qeq_bool q 0)
  end.

(** [x >= 0.0] and [x < 0.0]: both false on NaN. *)
Definition ge_zero (x : float) : bool :=
  match x with NaN => false | Num q => Qle_bool 0 q end.

Definition lt_zero (x : float) : bool :=
  match x with NaN => false | Num q => negb (Qle_bool 0 q) end.

(** [sorted([a, b])] unpacked into a pair. *)
Definition sorted2 (a b : Z) : Z * Z :=
  if b <? a then (b, a) else (a, b).

Definition Qcleb (x y : Qc) : bool := Qle_bool x y.

Fixpoint insert_sorted (x : Qc) (l : list Qc) : list Qc :=
  match l with
  | [] => [x]
  | y :: l' => if Qcleb x y then x :: l else y :: insert_sorted x l'
  end.

(** [sorted(l)] on numbers. *)
Definition sorted (l : list Qc) : list Qc := foldr insert_sorted [] l.

(** The numeric entries of a list of floats. *)
Fixpoint numeric (l : list float) : list Qc :=
  match l with
  | [] => []
  | NaN :: l' => numeric l'
  | Num q :: l' => q :: numeric l'
  end.

Definition half : Qc := Q2Qc (1 # 2).

(** The median of a list of numbers: the middle element of the sorted
    list, or the mean of the two middle elements; NaN on the empty list. *)
Definition median (l : list Qc) : float :=
  let s := sorted l in
  let n := length s in
  match n with
  | O => NaN
  | _ =>
    if Nat.even n
    then Num ((nth (n / 2 - 1)%nat s 0%Qc + nth (n / 2)%nat s 0%Qc) * half)%Qc
    else Num (nth (n / 2)%nat s 0%Qc)
  end.

(** [np.nanmedian]: the median of the non-NaN entries. *)
Definition nanmedian (l : list float) : float := median (numeric l).

(** [l.sort(key=f)] for an integer key: insertion sort, stable as Python's
    sort is (an element is inserted before the elements of equal key that
    followed it in the list). *)
Section sort_by.
Context {A : Type} (key : A → Z).

Fixpoint insert_by (x : A) (l : list A) : list A :=
  match l with
  | [] => [x]
  | y :: l' => if key y <? key x then y :: insert_by x l' else x :: l
  end.

Definition sort_by (l : list A) : list A := foldr insert_by [] l.
End sort_by.

End Py.

(** ** graphs/annotated_graph.py *)

Module AnnotatedGraph.
Import Py.

(** The object state. [G_nodes] and [G_edges] are the networkx graph
    [self.G]; the four tables are the entries of [self.G.graph]. Edge keys
    are the sorted pairs that [add_edge] builds. *)
Record t : Type := mk {
  max_nodes : nat;
  labels : list Z;
  last_edge : option (Z * Z);
  judgements : nat;
  G_nodes : gset Z;
  G_edges : gmap (Z * Z) Qc;
  edge_weight : gmap (Z * Z) Qc;
  weight_edge : gmap Qc (list (Z * Z));
  edge_soft_weight : gmap (Z * Z) Qc;
  edge_added_weights : gmap (Z * Z) (list float);
  community_nodes : list (Z * list Z)
}.

(** Modelled from the spec: [BaseGraph.__init__] (graphs/base_graph.py is
    not among the sources) leaves an empty graph with empty [edge_weight],
    [weight_edge] and [community_nodes] tables ("AnnotatedGraph starts
    empty (no edges, all labels -1)"); the rest is
    [AnnotatedGraph.__init__]. *)
Definition init (max_nodes : nat) : t :=
  {| max_nodes := max_nodes;
     labels := replicate max_nodes (-1);
     last_edge := None;
     judgements := 0;
     G_nodes := ∅;
     G_edges := ∅;
     edge_weight := ∅;
     weight_edge := ∅;
     edge_soft_weight := ∅;
     edge_added_weights := ∅;
     community_nodes := [] |}.

Definition two_and_half : Qc := Q2Qc (5 # 2).

Definition get_edge (g : t) (u_node v_node : Z) : option Qc :=
  let '(u, v) := sorted2 u_node v_node in
  match edge_added_weights g !! (u, v) with
  | None => None
  | Some weight =>
    match nanmedian weight with
    | NaN => Some 0%Qc
    | Num w => Some w
    end
  end.

Definition add_edge (g : t) (node_u node_v : Z) (weight : float) : t :=
  let '(u, v) := sorted2 node_u node_v in
  let nweight := if ne_zero weight then weight else NaN in
  let history := default [] (edge_added_weights g !! (u, v)) ++ [nweight] in
  let added := <[(u, v) := history]> (edge_added_weights g) in
  match nanmedian history with
  | NaN =>
    {| max_nodes := max_nodes g;
       labels := labels g;
       last_edge := Some (node_u, node_v);
       judgements := S (judgements g);
       G_nodes := G_nodes g;
       G_edges := G_edges g;
       edge_weight := edge_weight g;
       weight_edge := weight_edge g;
       edge_soft_weight := edge_soft_weight g;
       edge_added_weights := added;
       community_nodes := community_nodes g |}
  | Num weight_to_add =>
    {| max_nodes := max_nodes g;
       labels := labels g;
       last_edge := Some (node_u, node_v);
       judgements := S (judgements g);
       G_nodes := {[u]} ∪ {[v]} ∪ G_nodes g;
       G_edges := <[(u, v) := weight_to_add]> (G_edges g);
       edge_weight := <[(u, v) := weight_to_add]> (edge_weight g);
       weight_edge :=
         <[weight_to_add :=
             default [] (weight_edge g !! weight_to_add) ++ [(u, v)]]>
           (weight_edge g);
       edge_soft_weight :=
         <[(u, v) := (weight_to_add - two_and_half)%Qc]> (edge_soft_weight g);
       edge_added_weights := added;
       community_nodes := community_nodes g |}
  end.

(** [add_edges]: one [add_edge] per triple, in order. *)
Definition add_edges (g : t) (edge_list : list (Z * Z * float)) : t :=
  foldl (λ g e, add_edge g e.1.1 e.1.2 e.2) g edge_list.

Definition get_last_added_edge (g : t) : option (Z * Z) := last_edge g.

Definition get_last_added_node (g : t) : option Z := snd <$> last_edge g.

Definition get_num_added_edges (g : t) : nat := judgements g.

(** [l[i] = x] on a Python list: negative indices count from the end,
    anything else out of range raises IndexError ([None]). *)
Definition setitem (l : list Z) (i : Z) (x : Z) : option (list Z) :=
  let n := Z.of_nat (length l) in
  if bool_decide (0 ≤ i < n) then Some (<[Z.to_nat i := x]> l)
  else if bool_decide (- n ≤ i < 0) then Some (<[Z.to_nat (n + i) := x]> l)
  else None.

(** The inner loop [for node in v: self.labels[node] = k]. *)
Fixpoint label_nodes (k : Z) (v : list Z) (ls : list Z) : option (list Z) :=
  match v with
  | [] => Some ls
  | node :: v' => ls' ← setitem ls node k; label_nodes k v' ls'
  end.

(** The outer loop over the items of the dict, in insertion order. *)
Fixpoint label_clusters (cn : list (Z * list Z)) (ls : list Z)
  : option (list Z) :=
  match cn with
  | [] => Some ls
  | (k, v) :: cn' => ls' ← label_nodes k v ls; label_clusters cn' ls'
  end.

(** Modelled from the spec: [BaseGraph.update_community_nodes_membership]
    (graphs/base_graph.py is not among the sources) "replaces
    communityNodes wholesale". The label loop is the override in
    annotated_graph.py; [None] is an IndexError escaping it. *)
Definition update_community_nodes_membership
    (g : t) (new_community_nodes : list (Z * list Z)) : option t :=
  ls ← label_clusters new_community_nodes (labels g);
  Some {| max_nodes := max_nodes g;
          labels := ls;
          last_edge := last_edge g;
          judgements := judgements g;
          G_nodes := G_nodes g;
          G_edges := G_edges g;
          edge_weight := edge_weight g;
          weight_edge := weight_edge g;
          edge_soft_weight := edge_soft_weight g;
          edge_added_weights := edge_added_weights g;
          community_nodes := new_community_nodes |}.

(** The judgement history of a pair; empty when the pair was never judged. *)
Definition history (g : t) (k : Z * Z) : list float :=
  default [] (edge_added_weights g !! k).

(** What the aggregation tables should hold for a history. *)
Definition weight_of (h : list float) : option Qc :=
  match nanmedian h with NaN => None | Num m => Some m end.

(** A node is mentioned by a mapping when some cluster lists it. *)
Definition mentioned (cn : list (Z * list Z)) (n : Z) : Prop :=
  ∃ k v, (k, v) ∈ cn ∧ n ∈ v.

Definition with_last_edge (e : option (Z * Z)) (g : t) : t :=
  {| max_nodes := max_nodes g;
     labels := labels g;
     last_edge := e;
     judgements := judgements g;
     G_nodes := G_nodes g;
     G_edges := G_edges g;
     edge_weight := edge_weight g;
     weight_edge := weight_edge g;
     edge_soft_weight := edge_soft_weight g;
     edge_added_weights := edge_added_weights g;
     community_nodes := community_nodes g |}.

(** The value [add_edge] stores for a judgement: zero becomes NaN. *)
Definition stored (weight : float) : float :=
  if ne_zero weight then weight else NaN.

(** The aggregation tables agree with the histories. *)
Definition aggregated (g : t) : Prop :=
  ∀ k,
    edge_weight g !! k = weight_of (history g k) ∧
    edge_soft_weight g !! k
      = (λ w, (w - two_and_half)%Qc) <$> edge_weight g !! k ∧
    G_edges g !! k = edge_weight g !! k.

(** The id of the last cluster, in the order of the mapping, that lists
    node [n]. *)
Fixpoint last_mention (cn : list (Z * list Z)) (n : Z) : option Z :=
  match cn with
  | [] => None
  | (k, v) :: cn' =>
    match last_mention cn' n with
    | Some k' => Some k'
    | None => if decide (n ∈ v) then Some k else None
    end
  end.

(** Every node listed by the mapping is a valid non-negative index. *)
Definition nodes_in_range (N : nat) (cn : list (Z * list Z)) : Prop :=
  ∀ k v n, (k, v) ∈ cn → n ∈ v → 0 ≤ n < Z.of_nat N.

(** The reverse index [weight_edge] lists every pair under the weight it
    currently has. *)
Definition indexed (g : t) : Prop :=
  ∀ k w, edge_weight g !! k = Some w →
         ∃ l, weight_edge g !! w = Some l ∧ k ∈ l.

(** The nodes of [self.G] are the endpoints of the pairs that have a
    weight, and every judged pair is stored sorted. *)
Definition endpoints (g : t) : Prop :=
  (∀ n, n ∈ G_nodes g ↔
        ∃ k, is_Some (edge_weight g !! k) ∧ (n = k.1 ∨ n = k.2)) ∧
  (∀ k, is_Some (edge_added_weights g !! k) → k.1 ≤ k.2).

(** No pair is stored with an empty history. *)
Definition judged (g : t) : Prop :=
  ∀ k h, edge_added_weights g !! k = Some h → h ≠ [].

(** A list index [i] that [l[i] = x] accepts on a list of length [n]. *)
Definition valid_index (n : nat) (i : Z) : Prop :=
  - Z.of_nat n ≤ i < Z.of_nat n.

End AnnotatedGraph.


(** ** Effects: exceptions, random draws and the annealing library *)

Module Eff.

(** The Python exceptions that the modelled code can raise; [SystemExit] is
    what [sys.exit] raises. *)
Inductive exn : Type :=
| KeyError
| IndexError
| SystemExit
| AssertionError
| TypeError
| ValueError
| UnboundLocalError
| AttributeError.

(** Pure code that can raise. *)
Definition res (A : Type) : Type := exn + A.

#[export] Instance res_ret : MRet res := λ A a, inr a.
#[export] Instance res_bind : MBind res := λ A B f m,
  match m with inl e => inl e | inr a => f a end.

(** [for x in l: acc = f acc x], stopping at the first exception. *)
Fixpoint foldM {A B : Type} (f : B → A → res B) (b : B) (l : list A) : res B :=
  match l with
  | [] => inr b
  | x :: l' => b' ← f b x; foldM f b' l'
  end.

(** [[f x for x in l]], stopping at the first exception. *)
Fixpoint mapM_res {A B : Type} (f : A → res B) (l : list A) : res (list B) :=
  match l with
  | [] => inr []
  | x :: l' => y ← f x; ys ← mapM_res f l'; inr (y :: ys)
  end.

(** A program: it returns, raises, asks for a uniform draw of an index below
    [n] ([random.choice], [np.random.choice]) or calls
    [mlrose.simulated_annealing] on a discrete problem of the given length
    and [max_val]; the library's answer is a state and its fitness. *)
Inductive prog (A : Type) : Type :=
| Ret (a : A)
| Raise (e : exn)
| Choice (n : nat) (k : nat → prog A)
| Anneal (length max_val : nat) (init_state : option (list nat))
         (max_attempts max_iters : Z) (k : list nat * Qc → prog A).
Arguments Ret {A} a.
Arguments Raise {A} e.
Arguments Choice {A} n k.
Arguments Anneal {A} length max_val init_state max_attempts max_iters k.

Fixpoint bind {A B : Type} (p : prog A) (f : A → prog B) : prog B :=
  match p with
  | Ret a => f a
  | Raise e => Raise e
  | Choice n k => Choice n (λ i, bind (k i) f)
  | Anneal len mv ini ma mi k => Anneal len mv ini ma mi (λ r, bind (k r) f)
  end.

#[export] Instance prog_ret : MRet prog := @Ret.
#[export] Instance prog_bind : MBind prog := λ A B f p, bind p f.

Definition lift {A : Type} (r : res A) : prog A :=
  match r with inl e => Raise e | inr a => Ret a end.

(** [random.choice(l)]: IndexError on an empty sequence. *)
Definition random_choice {A : Type} (l : list A) : prog A :=
  match l with
  | [] => Raise IndexError
  | _ => Choice (length l)
           (λ i, match l !! i with Some x => Ret x | None => Raise IndexError end)
  end.

(** How a run ends. *)
Inductive outcome (A : Type) : Type :=
| Returned (a : A)
| Raised (e : exn).
Arguments Returned {A} a.
Arguments Raised {A} e.

(** [every_run p Q]: [Q] holds of the outcome of every run of [p], whatever
    the draws (below their bound) and whatever state the annealer returns
    (of the length of the problem, with entries below [max_val]). *)
Fixpoint every_run {A : Type} (p : prog A) (Q : outcome A → Prop) : Prop :=
  match p with
  | Ret a => Q (Returned a)
  | Raise e => Q (Raised e)
  | Choice n k => ∀ i, (i < n)%nat → every_run (k i) Q
  | Anneal len mv _ _ _ k =>
    ∀ st fit, length st = len → Forall (λ c, (c < mv)%nat) st →
              every_run (k (st, fit)) Q
  end.

(** A source of answers for one run: the draw for a bound, and the
    annealer's answer for a problem. *)
Record handler : Type := {
  h_choice : nat → nat;
  h_anneal : nat → nat → option (list nat) → list nat * Qc
}.

Fixpoint run {A : Type} (h : handler) (p : prog A) : outcome A :=
  match p with
  | Ret a => Returned a
  | Raise e => Raised e
  | Choice n k => run h (k (h_choice h n `mod` n)%nat)
  | Anneal len mv ini _ _ k => run h (k (h_anneal h len mv ini))
  end.

End Eff.

(** ** The networkx graph used by the clusterer *)

Module Nx.
Import Py.

(** [nx.Graph] with a ['weight'] attribute on every edge: the nodes in
    insertion order and every undirected edge once, as [G.nodes()] and
    [G.edges()] enumerate them. *)
Record graph : Type := {
  nodes : list Z;
  edges : list (Z * Z * float)
}.

(** What networkx guarantees of a graph: no node twice, and both ends of
    every edge among the nodes. *)
Definition wf (G : graph) : Prop :=
  NoDup (nodes G) ∧
  (∀ i j w, (i, j, w) ∈ edges G → i ∈ nodes G ∧ j ∈ nodes G).

(** [(i, j) in l], in either direction. *)
Definition listed (l : list (Z * Z)) (i j : Z) : bool :=
  bool_decide ((i, j) ∈ l) || bool_decide ((j, i) ∈ l).

(** [G.remove_edges_from(l)]. *)
Definition remove_edges_from (G : graph) (l : list (Z * Z)) : graph :=
  {| nodes := nodes G;
     edges := filter (λ e, listed l e.1.1 e.1.2 = false) (edges G) |}.

(** [G.subgraph(cluster)]: the nodes of [G] that are in [cluster] and the
    edges between them. *)
Definition subgraph (G : graph) (cluster : list Z) : graph :=
  {| nodes := filter (λ n, n ∈ cluster) (nodes G);
     edges := filter (λ e, e.1.1 ∈ cluster ∧ e.1.2 ∈ cluster) (edges G) |}.

(** [G.adj[v]]: the neighbours of [v]. *)
Definition adj (G : graph) (v : Z) : list Z :=
  flat_map (λ e, (if bool_decide (e.1.1 = v) then [e.1.2] else [])
                 ++ (if bool_decide (e.1.2 = v) then [e.1.1] else []))
           (edges G).

(** One level of the breadth-first search: every node of [thislevel] not
    seen yet is marked and its neighbours go to the next level. *)
Fixpoint visit_level (G : graph) (thislevel seen nextlevel : list Z)
  : list Z * list Z :=
  match thislevel with
  | [] => (seen, nextlevel)
  | v :: l =>
    if bool_decide (v ∈ seen) then visit_level G l seen nextlevel
    else visit_level G l (seen ++ [v]) (nextlevel ++ adj G v)
  end.

(** The loop [while nextlevel: ...] of the search. The fuel bounds the
    number of levels; [plain_bfs] supplies enough of it. *)
Fixpoint bfs_levels (fuel : nat) (G : graph) (seen nextlevel : list Z)
  : list Z :=
  match nextlevel with
  | [] => seen
  | _ =>
    match fuel with
    | O => seen
    | S fuel' =>
      let '(seen', nextlevel') := visit_level G nextlevel seen [] in
      bfs_levels fuel' G seen' nextlevel'
    end
  end.

(** networkx's [_plain_bfs(G, source)]: the nodes reachable from [source],
    in the order in which the search marks them. *)
Definition plain_bfs (G : graph) (source : Z) : list Z :=
  bfs_levels (S (length (nodes G))) G [] [source].

(** The loop of [nx.connected_components]: a search from every node not
    yet seen, in the order of [G.nodes()]. *)
Fixpoint components_from (G : graph) (vs seen : list Z) : list (list Z) :=
  match vs with
  | [] => []
  | v :: vs' =>
    if bool_decide (v ∈ seen) then components_from G vs' seen
    else let c := plain_bfs G v in c :: components_from G vs' (seen ++ c)
  end.

Definition connected_components (G : graph) : list (list Z) :=
  components_from G (nodes G) [].

(** Two nodes are linked inside a set of nodes [c] when a path of edges of
    [G] leads from one to the other through nodes of [c] only. *)
Inductive linked (G : graph) (c : list Z) : Z → Z → Prop :=
| linked_refl a : a ∈ c → linked G c a a
| linked_step a b d : linked G c a b → d ∈ adj G b → d ∈ c → linked G c a d.

(** A set of nodes is connected when any two of its nodes are linked
    inside it. *)
Definition connected (G : graph) (c : list Z) : Prop :=
  ∀ a b, a ∈ c → b ∈ c → linked G c a b.

(** A set of nodes closed under taking neighbours. *)
Definition closed (G : graph) (s : list Z) : Prop :=
  ∀ x y, x ∈ s → y ∈ adj G x → y ∈ s.

(** The invariant of the search from [v]: the nodes seen so far are linked
    to [v] among themselves; a pending node is [v] or a neighbour of a seen
    node; the neighbours of a seen node are seen or pending. *)
Definition bfs_inv (G : graph) (v : Z) (seen pending : list Z) : Prop :=
  NoDup seen ∧ seen ⊆ nodes G ∧ pending ⊆ nodes G ∧
  (∀ x, x ∈ seen → linked G seen v x) ∧
  (∀ y, y ∈ pending → y = v ∨ ∃ x, x ∈ seen ∧ y ∈ adj G x) ∧
  (∀ x y, x ∈ seen → y ∈ adj G x → y ∈ seen ∨ y ∈ pending) ∧
  (v ∈ seen ∨ v ∈ pending).

(** The graph restricted to its positive edges, those of weight [>= 0]. *)
Definition positive_edges (G : graph) : graph :=
  {| nodes := nodes G;
     edges := filter (λ e, ge_zero e.2 = true) (edges G) |}.

(** A cluster is positively connected when it is connected in the graph
    restricted to the positive edges. *)
Definition positively_connected (G : graph) (c : list Z) : Prop :=
  connected (positive_edges G) c.

(** A test for [wf]. *)
Definition wfb (G : graph) : bool :=
  bool_decide (NoDup (nodes G))
  && forallb (λ e, bool_decide (e.1.1 ∈ nodes G)
                   && bool_decide (e.1.2 ∈ nodes G)) (edges G).

End Nx.


(** ** simulation/clustering/utils/new_cluster_correlation_search.py *)

Module Clustering.
Import Py Eff Nx.

(** [w < 0.0 or is_non_value(w)] with the default [is_non_value]. *)
Definition non_evidence (w : float) : bool := lt_zero w || isnan w.

(** [[(i, j) for (i, j) in G.edges() if G[i][j]['weight'] < 0.0 or
    is_non_value(G[i][j]['weight'])]]. *)
Definition edges_negative_of (G : graph) : list (Z * Z) :=
  map (λ e, (e.1.1, e.1.2)) (filter (λ e, non_evidence e.2 = true) (edges G)).

(** The classes are Python sets; here each is the list of its nodes in
    the order the search found them. The key [list(x)[0]] of the final
    sort is the first node a set yields, which depends on the hash table
    of the set; the model takes the first node found instead, so the
    order of the classes (and of the nodes inside one) is an artefact of
    the model and no property below depends on it. Components are never
    empty. *)
Definition cluster_connected_components (G : graph) : list (list Z) :=
  let G' := remove_edges_from G (edges_negative_of G) in
  let classes := map remove_dups (connected_components G') in
  sort_by (λ x, hd 0 x) classes.

(** The loop of [split_non_evidence_clusters] that fills [classes_out]:
    [G'] is the copy of the graph without its negative edges. *)
Definition split_classes (G' : graph) (clusters : list (list Z))
  : list (list Z) :=
  flat_map (λ cluster,
              map remove_dups
                  (cluster_connected_components (subgraph G' cluster)))
           clusters.

Definition split_non_evidence_clusters (G : graph) (clusters : list (list Z))
  : res (list (list Z)) :=
  let nodes_in := concat clusters in
  let G' := remove_edges_from G (edges_negative_of G) in
  let classes_out := split_classes G' clusters in
  let nodes_out := concat classes_out in
  if bool_decide ((list_to_set nodes_in : gset Z) ≠ list_to_set nodes_out)
  then inl SystemExit
  else if bool_decide (length nodes_in ≠ length nodes_out)
  then inl SystemExit
  else inr classes_out.

(** [n2i[node]] and [i2n[i]]; a graph has no node twice. *)
Definition n2i (G : graph) (node : Z) : res nat :=
  match list_find (λ x, x = node) (nodes G) with
  | Some (i, _) => inr i
  | None => inl KeyError
  end.

Definition i2n (G : graph) (i : nat) : res Z :=
  match nodes G !! i with
  | Some node => inr node
  | None => inl KeyError
  end.

(** [{n2i[node]: i for i, cluster in enumerate(classes) for node in
    cluster}]. *)
Definition n2c_of (G : graph) (classes : list (list Z)) : res (gmap nat nat) :=
  foldM (λ m ic,
           foldM (λ m node, k ← n2i G node; inr (<[k := ic.1]> m)) m ic.2)
        ∅ (imap (λ i cluster, (i, cluster)) classes).

(** The number of a weight that passed one of the two sign tests (NaN
    passes neither). *)
Definition number (w : float) : Qc :=
  match w with Num q => q | NaN => 0%Qc end.

(** [set([(n2i[i], n2i[j], G[i][j]['weight']) for (i, j) in G.edges() if
    keep(G[i][j]['weight'])])]. *)
Definition indexed_edges (G : graph) (keep : float → bool)
  : res (list (nat * nat * Qc)) :=
  l ← mapM_res (λ e, a ← n2i G e.1.1; b ← n2i G e.1.2; inr (a, b, number e.2))
               (filter (λ e, keep e.2 = true) (edges G));
  inr (remove_dups l).

(** [state[i]] on a numpy array. *)
Definition getitem (state : list nat) (i : nat) : res nat :=
  match state !! i with
  | Some c => inr c
  | None => inl IndexError
  end.

Definition conflict_loss (edges_positive edges_negative : list (nat * nat * Qc))
    (state : list nat) : res Qc :=
  loss_pos ← foldM (λ acc e,
                      si ← getitem state e.1.1; sj ← getitem state e.1.2;
                      inr (if bool_decide (si ≠ sj) then (acc + e.2)%Qc else acc))
                   0%Qc edges_positive;
  loss_neg ← foldM (λ acc e,
                      si ← getitem state e.1.1; sj ← getitem state e.1.2;
                      inr (if bool_decide (si = sj) then (acc + Qcabs e.2)%Qc
                           else acc))
                   0%Qc edges_negative;
  inr (loss_pos + loss_neg)%Qc.

(** [np.array([n2c[n] for n in sorted(n2c.keys())])]: the keys are indices
    of nodes, so below the number of nodes. *)
Definition init_state_of (G : graph) (n2c : gmap nat nat) : list nat :=
  omap (λ n, n2c !! n) (seq 0 (length (nodes G))).

(** Everything computed before the test [loss_init == 0.0]. *)
Record prepared : Type := {
  p_edges_positive : list (nat * nat * Qc);
  p_edges_negative : list (nat * nat * Qc);
  p_init_state : list nat;
  p_loss_init : Qc
}.

Definition prepare (G : graph) (classes : list (list Z)) : res prepared :=
  n2c ← n2c_of G classes;
  edges_positive ← indexed_edges G ge_zero;
  edges_negative ← indexed_edges G lt_zero;
  let init_state := init_state_of G n2c in
  loss_init ← conflict_loss edges_positive edges_negative init_state;
  inr {| p_edges_positive := edges_positive;
         p_edges_negative := edges_negative;
         p_init_state := init_state;
         p_loss_init := loss_init |}.

(** [classes.sort(key=lambda x: -len(x))]. *)
Definition sort_by_size (classes : list (list Z)) : list (list Z) :=
  sort_by (λ x, - Z.of_nat (length x)) classes.

(** The table [l2s]: the entries in the order of their insertion, each
    with its key. *)
Definition l2s_table : Type := list (Qc * (list nat * nat)).

(** The loop [for n in range(2, s)]. *)
Fixpoint search (G : graph) (classes : list (list Z)) (init_state : list nat)
    (max_attempts max_iters : Z) (ns : list nat) (l2s : l2s_table)
  : prog l2s_table :=
  match ns with
  | [] => Ret l2s
  | n :: ns' =>
    let max_val := (n `max` length classes)%nat in
    Anneal (length (nodes G)) max_val (Some init_state) max_attempts max_iters
      (λ r1,
         let l2s := l2s ++ [(r1.2, (r1.1, max_val))] in
         Anneal (length (nodes G)) n None max_attempts max_iters
           (λ r2, search G classes init_state max_attempts max_iters ns'
                         (l2s ++ [(r2.2, (r2.1, n))])))
  end.

(** [min(l2s.keys())]. *)
Definition min_key (l2s : l2s_table) : Qc :=
  match l2s with
  | [] => 0%Qc
  | e :: l => foldl (λ m e', if Qcleb m e'.1 then m else e'.1) e.1 l
  end.

(** [l2s[k]]. *)
Definition entries_of (l2s : l2s_table) (k : Qc) : list (list nat * nat) :=
  map snd (filter (λ e, e.1 = k) l2s).

(** [c2n[c].append(x)] on a [defaultdict(list)], keys in insertion order. *)
Fixpoint append_to (c : nat) (x : Z) (c2n : list (nat * list Z))
  : list (nat * list Z) :=
  match c2n with
  | [] => [(c, [x])]
  | (c', l) :: rest =>
    if bool_decide (c' = c) then (c', l ++ [x]) :: rest
    else (c', l) :: append_to c x rest
  end.

(** [[set(c2n[c]) for c in c2n]] after the loop over [enumerate(best_state)]. *)
Definition classes_of_state (G : graph) (best_state : list nat)
  : res (list (list Z)) :=
  c2n ← foldM (λ c2n ic, node ← i2n G ic.1; inr (append_to ic.2 node c2n))
              [] (imap (λ i c, (i, c)) best_state);
  inr (map (λ e, remove_dups e.2) c2n).

(** The classes the clusterer starts from: the connected components
    unless an initial clustering is provided. *)
Definition initial_classes (G : graph) (initial : list (list Z))
  : list (list Z) :=
  match initial with
  | [] => cluster_connected_components G
  | _ => initial
  end.

(** The clusterer. The statistics it returns next to the classes only hold
    the running time and are left out. *)
Definition cluster_correlation_search (G : graph) (s : nat)
    (max_attempts max_iters : Z) (initial : list (list Z)) (split_flag : bool)
  : prog (list (list Z)) :=
  let classes := initial_classes G initial in
  p ← lift (prepare G classes);
  if Qeq_bool (p_loss_init p) 0 then Ret (sort_by_size classes)
  else
    l2s ← search G classes (p_init_state p) max_attempts max_iters
                 (seq 2 (s - 2))
                 [(p_loss_init p, (p_init_state p, length classes))];
    let candidates := entries_of l2s (min_key l2s) in
    best ← random_choice candidates;
    classes ← lift (classes_of_state G best.1);
    classes ← (if split_flag
               then lift (split_non_evidence_clusters G classes)
               else Ret classes);
    Ret (sort_by_size classes).

(** The loss of an assignment as the specification words it: the weights
    of the positive edges whose ends lie in different clusters plus the
    absolute weights of the negative edges whose ends lie in the same one. *)
Definition sum_Qc (l : list Qc) : Qc := foldr Qcplus 0%Qc l.

Definition loss (edges_positive edges_negative : list (nat * nat * Qc))
    (state : list nat) : Qc :=
  (sum_Qc (map (λ e, e.2)
               (filter (λ e, state !! e.1.1 ≠ state !! e.1.2) edges_positive))
   + sum_Qc (map (λ e, Qcabs e.2)
                 (filter (λ e, state !! e.1.1 = state !! e.1.2) edges_negative)))%Qc.

(** The cluster-to-nodes mapping that
    [clustering_strategy.correlation_clustering] builds from the result. *)
Definition community_node (clusters : list (list Z)) : list (Z * list Z) :=
  imap (λ cluster_id cluster, (Z.of_nat cluster_id, cluster)) clusters.

End Clustering.

(** ** Graphs of the specification's scenarios *)

Module Scenario.
Import Py Nx.

Definition plus_one : float := Num (Q2Qc 1).
Definition minus_one : float := Num (Q2Qc (-1)).

(** S3: a 3-clique of positive edges and the isolated node 3. *)
Definition S3_graph : graph :=
  {| nodes := [0; 1; 2; 3];
     edges := [(0, 1, plus_one); (1, 2, plus_one); (0, 2, plus_one)] |}.

(** S4: two positive edges and a repelling one. *)
Definition S4_graph : graph :=
  {| nodes := [0; 1; 2];
     edges := [(0, 1, plus_one); (1, 2, plus_one); (0, 2, minus_one)] |}.

(** Two nodes and no edge. *)
Definition two_nodes : graph := {| nodes := [0; 1]; edges := [] |}.

End Scenario.

(** * simulation/stopping/utils/stopping_utils.py *)

Module StoppingUtils.
Import Py Eff.

(** [length_padding]: the inputs are copied, the shorter copy is extended
    with zeros. *)
Definition length_padding (list1 list2 : list Z) : list Z * list Z :=
  let n_l1 := list1 in
  let n_l2 := list2 in
  if bool_decide (length n_l1 = length n_l2) then (n_l1, n_l2)
  else if bool_decide (length n_l1 < length n_l2)%nat
  then (n_l1 ++ replicate (length n_l2 - length n_l1) 0, n_l2)
  else (n_l1, n_l2 ++ replicate (length n_l1 - length n_l2) 0).

(** [l[i]] for an index of [range(len(...))]. *)
Definition item (l : list Z) (i : nat) : res Z :=
  match l !! i with
  | Some x => inr x
  | None => inl IndexError
  end.

(** [clean_labels]: the assertion, then the loop over [range(len(ref_labels))]. *)
Definition clean_labels (ref_labels current_labels : list Z)
  : res (list Z * list Z) :=
  if bool_decide (length ref_labels = length current_labels) then
    foldM (λ acc i,
             c ← item current_labels i;
             r ← item ref_labels i;
             inr (if bool_decide (c ≠ -1) && bool_decide (r ≠ -1)
                  then (acc.1 ++ [r], acc.2 ++ [c])
                  else acc))
          ([], []) (seq 0 (length ref_labels))
  else inl AssertionError.

(** The inner loop of [check_connectivity_two_clusters] for one [u]:
    [None] once the function has returned True, the running count
    otherwise. [contains] is the test [(u, v) in edge_list] of the
    container that is passed. *)
Fixpoint count_row (contains : Z * Z → bool) (u : Z) (s_community : list Z)
    (min_connections count : Z) : option Z :=
  match s_community with
  | [] => Some count
  | v :: s' =>
    if contains (u, v) then
      let count := count + 1 in
      if bool_decide (min_connections ≤ count) then None
      else count_row contains u s' min_connections count
    else count_row contains u s' min_connections count
  end.

Fixpoint count_rows (contains : Z * Z → bool) (f_community s_community : list Z)
    (min_connections count : Z) : option Z :=
  match f_community with
  | [] => Some count
  | u :: f' =>
    match count_row contains u s_community min_connections count with
    | None => None
    | Some count => count_rows contains f' s_community min_connections count
    end
  end.

Definition check_connectivity_two_clusters (contains : Z * Z → bool)
    (f_community s_community : list Z) (min_connections : Z) : bool :=
  match count_rows contains f_community s_community min_connections 0 with
  | None => true
  | Some _ => false
  end.

(** The number of pairs of the two communities that are in the edge list,
    counted as often as the lists name them. *)
Definition connections (contains : Z * Z → bool)
    (f_community s_community : list Z) : Z :=
  Z.of_nat (length (filter (λ p, contains p = true)
                           (flat_map (λ u, map (pair u) s_community)
                                     f_community))).

(** The pairs of positions at which both lists hold a label. *)
Definition labelled_pairs (ref_labels current_labels : list Z)
  : list (Z * Z) :=
  filter (λ p, p.2 ≠ -1 ∧ p.1 ≠ -1) (zip ref_labels current_labels).

End StoppingUtils.

(** * Parameter dictionaries and their guards *)

Module Params.
Import Py Eff.

(** The Python values that the parameter dictionaries of the strategies
    hold. A function is named; what calling it does is given where it is
    called. *)
Inductive value : Type :=
| VNone
| VBool (b : bool)
| VInt (z : Z)
| VFloat (q : Qc)
| VStr (s : string)
| VTuple (l : list value)
| VDict (d : list (string * value))
| VFunction (name : string).

Inductive ty : Type :=
| TNone | TBool | TInt | TFloat | TStr | TTuple | TDict | TFunction.

#[export] Instance ty_eq_dec : EqDecision ty.
Proof. solve_decision. Defined.

(** [type(v)]. *)
Definition type_of (v : value) : ty :=
  match v with
  | VNone => TNone
  | VBool _ => TBool
  | VInt _ => TInt
  | VFloat _ => TFloat
  | VStr _ => TStr
  | VTuple _ => TTuple
  | VDict _ => TDict
  | VFunction _ => TFunction
  end.

Definition params : Type := gmap string value.

(** [params.get(key, default)]. *)
Definition get (p : params) (key : string) (default_ : value) : value :=
  default default_ (p !! key).

(** [assert b], with assertions enabled. *)
Definition assert_ (b : bool) : res unit :=
  if b then inr () else inl AssertionError.

(** [v == s] for a string literal [s]. *)
Definition is_str (v : value) (s : string) : bool :=
  match v with VStr s' => bool_decide (s' = s) | _ => false end.

(** [callable(v)]. *)
Definition callable (v : value) : bool :=
  match v with VFunction _ => true | _ => false end.

(** [iter(v)] as a [for] loop does it: the items, or TypeError for a value
    that is not iterable. *)
Definition iter (v : value) : res (list value) :=
  match v with
  | VTuple l => inr l
  | VDict d => inr (map (λ kv, VStr kv.1) d)
  | VStr s => inr (map (λ c, VStr (String c EmptyString)) (String.list_ascii_of_string s))
  | VNone | VBool _ | VInt _ | VFloat _ | VFunction _ => inl TypeError
  end.

End Params.

(** * simulation/clustering_strategy.py *)

Module ClusteringStrategy.
Import Py Eff Params.

Section correlation_clustering.
(** The graph class and the clusterer of [simulation.utils], which are not
    among the sources, are left open. *)
Context {graph nx_graph : Type}.
Variable get_nx_graph_copy : graph → value → nx_graph.
Variable cluster_correlation_search :
  nx_graph → value → value → value → prog (list (list Z)).

Definition correlation_clustering (simulationGraph : graph) (p : params)
  : prog (list (Z * list Z)) :=
  let s := get p "s" (VInt 10) in
  _ ← lift (assert_ (bool_decide (type_of s = TInt)));
  let weights := get p "weights" (VStr "edge_weight") in
  _ ← lift (assert_ (bool_decide (type_of s = TStr)));
  let max_attempts := get p "max_attempts" (VInt 200) in
  _ ← lift (assert_ (bool_decide (type_of max_attempts = TInt)));
  let max_iters := get p "max_iters" (VInt 500) in
  _ ← lift (assert_ (bool_decide (type_of max_iters = TInt)));
  clusters ← cluster_correlation_search
               (get_nx_graph_copy simulationGraph weights)
               s max_attempts max_iters;
  Ret (Clustering.community_node clusters).
End correlation_clustering.

End ClusteringStrategy.

(** * simulation/stopping/stopping_criterion.py *)

Module StoppingCriterion.
Import Py Eff Params.

(** [edges_added] on an annotated graph. *)
Definition edges_added (graph : AnnotatedGraph.t) (p : params) : res bool :=
  let number_edges := get p "number_edges" VNone in
  _ ← assert_ (bool_decide (type_of number_edges = TInt));
  match number_edges with
  | VInt n =>
    inr (bool_decide
           (n ≤ Z.of_nat (AnnotatedGraph.get_num_added_edges graph)))
  | _ => inl TypeError
  end.

(** [[f x for x in l]] for a function that draws. *)
Fixpoint mapM_prog {A B : Type} (f : A → prog B) (l : list A) : prog (list B) :=
  match l with
  | [] => Ret []
  | x :: l' => y ← f x; ys ← mapM_prog f l'; Ret (y :: ys)
  end.

(** [v] as a number in a comparison. *)
Definition number_of (v : value) : res Qc :=
  match v with
  | VInt z => inr (Q2Qc (inject_Z z))
  | VFloat q => inr q
  | VBool b => inr (Q2Qc (inject_Z (if b then 1 else 0)))
  | _ => inl TypeError
  end.

Section bootstraping.
(** What one round computes (a fresh [BaseGraph] filled with a random
    sample, then [stat_func(g, params)]) and [np.percentile] are left
    open: graphs/base_graph.py is not among the sources. *)
Context {graph : Type}.
Variable round_statistic : graph → value → value → params → prog Qc.
Variable percentile : list Qc → Qc → Qc.

Definition bootstraping (g : graph) (p : params) : prog bool :=
  let rounds := get p "rounds" VNone in
  _ ← lift (assert_ (bool_decide (type_of rounds = TInt)));
  let sample_size := get p "sample_size" VNone in
  _ ← lift (assert_ (bool_decide (type_of sample_size = TInt)));
  let alpha := get p "alpha" VNone in
  _ ← lift (assert_ (bool_decide (type_of alpha = TFloat)));
  let bound := get p "bound" VNone in
  _ ← lift (assert_ (match bound with
                     | VTuple l => bool_decide (length l = 2%nat)
                     | _ => false
                     end));
  let stat_func := get p "stat_func" VNone in
  _ ← lift (assert_ (callable stat_func));
  let stat_params := get p "stat_params" VNone in
  _ ← lift (assert_ (bool_decide (type_of stat_params = TDict)));
  items ← lift (iter rounds);
  stats ← mapM_prog (λ _, round_statistic g sample_size stat_func p) items;
  let stats := sorted stats in
  match alpha, bound with
  | VFloat a, VTuple [b0; b1] =>
    let lower := percentile stats (((1 - a) / Q2Qc 2) * Q2Qc 100)%Qc in
    let upper := percentile stats ((a + (1 - a) / Q2Qc 2) * Q2Qc 100)%Qc in
    b0 ← lift (number_of b0);
    b1 ← lift (number_of b1);
    Ret (Qcleb b0 lower && Qcleb b1 upper)
  | _, _ => Raise TypeError
  end.
End bootstraping.

End StoppingCriterion.

(** * simulation/stopping/adv_stopping_criterion.py *)

Module AdvStoppingCriterion.
Import Py Eff Params StoppingUtils.

(** [l[-t:]]. *)
Definition last_items {A : Type} (t : Z) (l : list A) : list A :=
  if bool_decide (0 < t) then drop (length l - Z.to_nat t) l
  else drop (Z.to_nat (- t)) l.

(** The guard phase that [cluster_size_change_conv], [_rand_index_conv]
    and [_jsd_conv] share: the values of [timesteps], [threshold] and
    [error_func]. *)
Definition guards (p : params) : res (value * value * value) :=
  let timesteps := get p "timesteps" (VInt 5) in
  _ ← assert_ (bool_decide (type_of timesteps = TInt));
  let threshold := get p "threshold" (VFloat (Q2Qc (1 # 10))) in
  _ ← assert_ (bool_decide (type_of threshold = TFloat));
  let error_func := get p "error_func" (VStr "mse") in
  _ ← assert_ (bool_decide (type_of threshold = TStr));
  inr (timesteps, threshold, error_func).

Section criteria.
(** The graph class (graphs/base_graph.py) and the functions of sklearn
    and scipy are left open. *)
Context {graph : Type}.
Variable get_number_communities : graph → Z.
Variable get_community_sizes : graph → list Z.
Variable labels : graph → list Z.
Variable mse_mean rmse_mean : list Qc → Qc.
Variable adjusted_rand_score : list Z → list Z → Qc.
Variable jensenshannon : list Z → list Z → Qc.

(** The end that the three functions share: [if len(series) < timesteps:
    return False], then the error of the last [timesteps] entries against
    the threshold. *)
Definition converged (series : list Qc) (timesteps threshold error_func : value)
  : res bool :=
  match timesteps, threshold with
  | VInt t, VFloat th =>
    if bool_decide (Z.of_nat (length series) < t) then inr false
    else
      let error := if is_str error_func "rmse" then rmse_mean else mse_mean in
      inr (negb (Qcleb th (error (last_items t series))))
  | _, _ => inl TypeError
  end.

(** The state is the module's list [_num_clusters]. *)
Definition cluster_size_change_conv (_num_clusters : list Z) (g : graph)
    (p : params) : list Z * res bool :=
  match guards p with
  | inl e => (_num_clusters, inl e)
  | inr (timesteps, threshold, error_func) =>
    let _num_clusters := _num_clusters ++ [get_number_communities g] in
    (_num_clusters,
     converged (map (λ n, Q2Qc (inject_Z n)) _num_clusters)
               timesteps threshold error_func)
  end.

(** The state is the module's [_rand_index] and [_last_label]. *)
Definition _rand_index_conv (state : list Qc * option (list Z)) (g : graph)
    (p : params) : (list Qc * option (list Z)) * res bool :=
  match guards p with
  | inl e => (state, inl e)
  | inr (timesteps, threshold, error_func) =>
    match state.2 with
    | None => ((state.1, Some (labels g)), inr false)
    | Some _last_label =>
      match clean_labels _last_label (labels g) with
      | inl e => (state, inl e)
      | inr (ref, crr) =>
        let _rand_index := state.1 ++ [adjusted_rand_score ref crr] in
        ((_rand_index, Some (labels g)),
         converged _rand_index timesteps threshold error_func)
      end
    end
  end.

(** The state is the module's [_jsd] and [_last_cluster]. *)
Definition _jsd_conv (state : list Qc * option (list Z)) (g : graph)
    (p : params) : (list Qc * option (list Z)) * res bool :=
  match guards p with
  | inl e => (state, inl e)
  | inr (timesteps, threshold, error_func) =>
    match state.2 with
    | None => ((state.1, Some (get_community_sizes g)), inr false)
    | Some _last_cluster =>
      let '(cl1, cl2) := length_padding _last_cluster (get_community_sizes g) in
      let _jsd := state.1 ++ [jensenshannon cl1 cl2] in
      ((_jsd, Some (get_community_sizes g)),
       converged _jsd timesteps threshold error_func)
    end
  end.
End criteria.

End AdvStoppingCriterion.

(** * simulation/simulation.py *)

Module Simulation.
Import Py Eff Params.

(** [v != None]. *)
Definition not_none (v : value) : bool :=
  match v with VNone => false | _ => true end.

Section simulation.
(** The strategies are functions that the caller passes in the parameter
    dictionary. What calling one does is left open: it may draw, and it
    may read and change a state [world] of its own (the module variables
    of the advanced stopping criteria), so it takes and returns one. The
    true graph is only handed on to the sampling strategy. *)
Context {true_graph world : Type}.
Variable call_sampling :
  string → true_graph → params → world → prog (list (Z * Z * float) * world).
Variable call_clustering :
  string → AnnotatedGraph.t → params → world
  → prog (list (Z * list Z) * world).
Variable call_stopping :
  string → AnnotatedGraph.t → params → world → prog (bool * world).

(** [f(...)]: TypeError when [f] is not callable. *)
Definition call {A : Type} (f : value) (k : string → prog A) : prog A :=
  match f with
  | VFunction name => k name
  | _ => Raise TypeError
  end.

(** A parameter asserted to be a dict, as a dictionary. *)
Definition as_params (v : value) : params :=
  match v with
  | VDict d => (list_to_map d : gmap string value)
  | _ => (∅ : gmap string value)
  end.

(** The guard phase: the strategies and their parameters. *)
Definition guard_phase (kwargs : params)
  : res (value * value * option (value * value) * value * value) :=
  p ← (if bool_decide (size kwargs = 1%nat) then
         match kwargs !! "params" with
         | None => inl KeyError
         | Some (VDict d) => inr (list_to_map d : gmap string value)
         | Some _ => inl AttributeError
         end
       else inr kwargs);
  let sampling_strategy := get p "sampling_strategy" VNone in
  _ ← assert_ (not_none sampling_strategy);
  let sampling_params := get p "sampling_params" VNone in
  _ ← assert_ (bool_decide (type_of sampling_params = TDict));
  let clustering_strategy := get p "clustering_strategy" VNone in
  clustering ←
    (if not_none clustering_strategy then
       let clustering_params := get p "clustering_params" VNone in
       _ ← assert_ (bool_decide (type_of clustering_params = TDict));
       inr (Some (clustering_strategy, clustering_params))
     else inr None);
  let stopping_criterion := get p "stopping_criterion" VNone in
  _ ← assert_ (not_none stopping_criterion);
  let stopping_params := get p "stopping_params" VNone in
  _ ← assert_ (bool_decide (type_of stopping_params = TDict));
  inr (sampling_strategy, sampling_params, clustering,
       stopping_criterion, stopping_params).

(** The loop [for _ in range(max_iter)] over the values of [_] still to
    come; [last] is the value [_] holds, if it holds one. *)
Fixpoint rounds (trueGraph : true_graph)
    (sampling_strategy sampling_params : value)
    (clustering : option (value * value))
    (stopping_criterion stopping_params : value)
    (range : list Z) (last : option Z)
    (simulationGraph : AnnotatedGraph.t) (w : world)
  : prog (AnnotatedGraph.t * world * option Z) :=
  match range with
  | [] => Ret (simulationGraph, w, last)
  | i :: range' =>
    '(sampled_edges, w) ←
      call sampling_strategy
           (λ f, call_sampling f trueGraph (as_params sampling_params) w);
    let simulationGraph :=
      AnnotatedGraph.add_edges simulationGraph sampled_edges in
    '(simulationGraph, w) ←
      match clustering with
      | Some (clustering_strategy, clustering_params) =>
        '(clusters, w) ←
          call clustering_strategy
               (λ f, call_clustering f simulationGraph
                                     (as_params clustering_params) w);
        match AnnotatedGraph.update_community_nodes_membership
                simulationGraph clusters with
        | Some g => Ret (g, w)
        | None => Raise IndexError
        end
      | None => Ret (simulationGraph, w)
      end;
    '(stop, w) ←
      call stopping_criterion
           (λ f, call_stopping f simulationGraph (as_params stopping_params) w);
    if (stop : bool) then Ret (simulationGraph, w, Some i)
    else rounds trueGraph sampling_strategy sampling_params clustering
                stopping_criterion stopping_params range' (Some i)
                simulationGraph w
  end.

(** [range(max_iter)]. *)
Definition range (max_iter : Z) : list Z :=
  map Z.of_nat (seq 0 (Z.to_nat max_iter)).

Definition simulation (trueGraph : true_graph)
    (simulationGraph : AnnotatedGraph.t) (max_iter : Z) (kwargs : params)
    (w : world)
  : prog (true_graph * AnnotatedGraph.t * bool * world) :=
  g ← lift (guard_phase kwargs);
  let '(sampling_strategy, sampling_params, clustering,
        stopping_criterion, stopping_params) := g in
  r ← rounds trueGraph sampling_strategy sampling_params clustering
             stopping_criterion stopping_params (range max_iter) None
             simulationGraph w;
  match r.2 with
  | None => Raise UnboundLocalError
  | Some i => Ret (trueGraph, r.1.1, bool_decide (max_iter ≤ i + 1), r.1.2)
  end.
End simulation.

End Simulation.

(** * simulation/sampling *)

Module Sampling.
Import Py Eff Params.

(** [random.sample(population, 2)]: two entries at different positions,
    every ordered pair of positions as likely as any other; ValueError
    when the population has fewer than two entries. *)
Definition random_sample_2 {A : Type} (population : list A) : prog (A * A) :=
  if bool_decide (length population < 2)%nat then Raise ValueError
  else
    Choice (length population)
      (λ i, Choice (length population - 1)
         (λ j, match population !! i, delete i population !! j with
               | Some x, Some y => Ret (x, y)
               | _, _ => Raise IndexError
               end)).

Section strategies.
(** The graph that is sampled is a [BaseGraph] (graphs/base_graph.py is
    not among the sources): its nodes and its [get_edge] are left open. *)
Context {graph weight : Type}.
Variable nodes : graph → list Z.
Variable get_edge : graph → Z → Z → weight.

(** The loop [for i in range(sample_size)] of [random_sampling], and of
    [random_sample] in stopping_utils.py, which has the same body. The
    node view [G.nodes()] is read as the sequence of the nodes. *)
Fixpoint sample_pairs (trueGraph : graph) (n : nat)
    (sampled_edge_list : list (Z * Z * weight))
  : prog (list (Z * Z * weight)) :=
  match n with
  | O => Ret sampled_edge_list
  | S n' =>
    pair ← random_sample_2 (nodes trueGraph);
    let '(u, v) := sorted2 pair.1 pair.2 in
    sample_pairs trueGraph n'
                 (sampled_edge_list ++ [(u, v, get_edge trueGraph u v)])
  end.

Definition random_sampling (trueGraph : graph) (p : params)
  : prog (list (Z * Z * weight)) :=
  let sample_size := get p "sample_size" VNone in
  _ ← lift (assert_ (Simulation.not_none sample_size
                     && bool_decide (type_of sample_size = TInt)));
  match sample_size with
  | VInt n => sample_pairs trueGraph (Z.to_nat n) []
  | _ => Raise TypeError
  end.

(** [_exploration_phase] of dwug_sampling.py: the loop [while
    len(sampled_edge_list) < max_edges]. Every turn adds an edge, so
    [fuel] turns suffice when [fuel] is at least [max_edges]. *)
Fixpoint walk (sample_graph : graph) (nodes_ : list Z) (max_edges : Qc)
    (fuel : nat) (last_node : Z) (sampled_edge_list : list (Z * Z * weight))
  : prog (list (Z * Z * weight)) :=
  if Qcleb max_edges (Q2Qc (inject_Z (Z.of_nat (length sampled_edge_list))))
  then Ret sampled_edge_list
  else
    match fuel with
    | O => Ret sampled_edge_list
    | S fuel' =>
      next_node ← random_choice (filter (λ n, n ≠ last_node) nodes_);
      walk sample_graph nodes_ max_edges fuel' next_node
           (sampled_edge_list
            ++ [(last_node, next_node,
                 get_edge sample_graph last_node next_node)])
    end.

(** The least number of turns that is at least [max_edges]. *)
Definition turns (max_edges : Qc) : nat := Z.to_nat (Qceiling max_edges).

Definition _exploration_phase (sample_graph : graph) (nodes_ : list Z)
    (max_edges : Qc) : prog (list (Z * Z * weight)) :=
  if bool_decide (length nodes_ = 0%nat) || bool_decide (length nodes_ = 1%nat)
  then Ret []
  else
    last_node ← random_choice nodes_;
    walk sample_graph nodes_ max_edges (turns max_edges) last_node [].

(** [_check_node_cluster_con] on the annotated graph. *)
Definition _check_node_cluster_con (g : AnnotatedGraph.t) (node : Z)
    (cluster : list Z) : bool :=
  existsb (λ c_node,
             let '(u, v) := sorted2 node c_node in
             bool_decide (AnnotatedGraph.get_edge g u v ≠ None))
          cluster.

(** The inner loop of [_combination_phase], over the multi-clusters. *)
Fixpoint connect (sample_graph : graph) (annotated_graph : AnnotatedGraph.t)
    (node : Z) (multi_clusters : list (list Z))
    (sampled_edge_list : list (Z * Z * weight))
  : prog (list (Z * Z * weight)) :=
  match multi_clusters with
  | [] => Ret sampled_edge_list
  | cluster :: rest =>
    if negb (_check_node_cluster_con annotated_graph node cluster) then
      connection ← random_choice cluster;
      connect sample_graph annotated_graph node rest
              (sampled_edge_list
               ++ [(node, connection, get_edge sample_graph node connection)])
    else connect sample_graph annotated_graph node rest sampled_edge_list
  end.

(** The outer loop, over the nodes. *)
Fixpoint connect_all (sample_graph : graph) (annotated_graph : AnnotatedGraph.t)
    (nodes_ : list Z) (multi_clusters : list (list Z))
    (sampled_edge_list : list (Z * Z * weight))
  : prog (list (Z * Z * weight)) :=
  match nodes_ with
  | [] => Ret sampled_edge_list
  | node :: rest =>
    sampled_edge_list ← connect sample_graph annotated_graph node
                                multi_clusters sampled_edge_list;
    connect_all sample_graph annotated_graph rest multi_clusters
                sampled_edge_list
  end.

Definition _combination_phase (sample_graph : graph)
    (annotated_graph : AnnotatedGraph.t) (nodes_ : list Z)
    (multi_clusters : list (list Z)) : prog (list (Z * Z * weight)) :=
  if bool_decide (length nodes_ = 0%nat) then Ret []
  else connect_all sample_graph annotated_graph nodes_ multi_clusters [].
End strategies.

(** A walk: every edge starts at the node where the one before ended;
    the first starts at [start]. *)
Fixpoint chain_from {weight : Type} (start : Z) (es : list (Z * Z * weight))
  : Prop :=
  match es with
  | [] => True
  | e :: es' => e.1.1 = start ∧ chain_from e.1.2 es'
  end.

(** The pairs of a node and a multi-cluster that [_combination_phase]
    finds unconnected, in the order it meets them. *)
Definition unconnected (annotated_graph : AnnotatedGraph.t) (nodes_ : list Z)
    (multi_clusters : list (list Z)) : list (Z * list Z) :=
  flat_map (λ node,
              map (pair node)
                  (filter (λ cluster,
                             _check_node_cluster_con annotated_graph node
                                                     cluster = false)
                          multi_clusters))
           nodes_.

End Sampling.
(* ================================================================== *)
(** * Properties *)

(** ** Sorting and the median *)

Section py_facts.
Import Py.

Lemma numeric_app (l l' : list float) :
  numeric (l ++ l') = numeric l ++ numeric l'.
Proof.
  induction l as [|[|q] l IH]; simpl; [done | done | by rewrite IH].
Qed.

Lemma length_insert_sorted (x : Qc) (l : list Qc) :
  length (insert_sorted x l) = S (length l).
Proof.
  induction l as [|y l IH]; simpl; [done|].
  destruct (Qcleb x y); simpl; [done | by rewrite IH].
Qed.

Lemma length_sorted (l : list Qc) : length (sorted l) = length l.
Proof.
  induction l as [|x l IH]; simpl; [done|].
  by rewrite length_insert_sorted, IH.
Qed.

Lemma median_NaN (l : list Qc) : median l = NaN ↔ l = [].
Proof.
  unfold median. rewrite length_sorted.
  destruct l as [|x l]; simpl length; [done|].
  split; [|done]. by destruct (Nat.even _).
Qed.

Lemma nanmedian_NaN (h : list float) : nanmedian h = NaN ↔ numeric h = [].
Proof. apply median_NaN. Qed.

(** A missing judgement never contributes to the median. *)
Lemma nanmedian_app_NaN (h : list float) :
  nanmedian (h ++ [NaN]) = nanmedian h.
Proof. unfold nanmedian. by rewrite numeric_app, app_nil_r. Qed.

Lemma sorted2_eq (u : Z) : sorted2 u u = (u, u).
Proof. unfold sorted2. by rewrite Z.ltb_irrefl. Qed.

Lemma sorted2_comm (u v : Z) : sorted2 v u = sorted2 u v.
Proof.
  unfold sorted2.
  destruct (Z.ltb_spec u v), (Z.ltb_spec v u); try done; try lia.
  by replace v with u by lia.
Qed.

Lemma sorted2_idemp (u v : Z) :
  sorted2 (sorted2 u v).1 (sorted2 u v).2 = sorted2 u v.
Proof.
  unfold sorted2. destruct (Z.ltb_spec v u); simpl.
  - destruct (Z.ltb_spec u v); [lia | done].
  - destruct (Z.ltb_spec v u); [lia | done].
Qed.
End py_facts.

(** ** The annotated graph *)

Section annotated_graph_facts.
Import Py AnnotatedGraph.

Lemma history_add_edge (g : t) (u v : Z) (w : float) (k : Z * Z) :
  history (add_edge g u v w) k
  = if decide (sorted2 u v = k) then history g k ++ [stored w]
    else history g k.
Proof.
  unfold add_edge, history, stored.
  destruct (sorted2 u v) as [a b].
  destruct (nanmedian _); simpl; rewrite lookup_insert;
    destruct (decide ((a, b) = k)) as [<-|]; done.
Qed.

Lemma judgements_add_edge (g : t) (u v : Z) (w : float) :
  judgements (add_edge g u v w) = S (judgements g).
Proof.
  unfold add_edge. destruct (sorted2 u v). by destruct (nanmedian _).
Qed.

Lemma last_edge_add_edge (g : t) (u v : Z) (w : float) :
  last_edge (add_edge g u v w) = Some (u, v).
Proof.
  unfold add_edge. destruct (sorted2 u v). by destruct (nanmedian _).
Qed.

Lemma aggregated_init (N : nat) : aggregated (init N).
Proof. intros k. unfold history, weight_of. simpl. by rewrite !lookup_empty. Qed.

Lemma aggregated_add_edge (g : t) (u v : Z) (w : float) :
  aggregated g → aggregated (add_edge g u v w).
Proof.
  intros Hg k. rewrite history_add_edge.
  destruct (Hg k) as (Hw & Hs & HG).
  unfold add_edge, stored.
  destruct (sorted2 u v) as [a b] eqn:Hab.
  fold (history g (a, b)).
  destruct (decide ((a, b) = k)) as [<-|Hne].
  - unfold weight_of.
    destruct (nanmedian (history g (a, b) ++ _)) as [|m] eqn:Hm; simpl.
    + split; [|done]. rewrite Hw. unfold weight_of.
      apply nanmedian_NaN in Hm. rewrite numeric_app in Hm.
      apply app_eq_nil in Hm as [Hm _].
      apply nanmedian_NaN in Hm. by rewrite Hm.
    + by rewrite !lookup_insert_eq.
  - destruct (nanmedian (history g (a, b) ++ _)); simpl; [done|].
    by rewrite !lookup_insert_ne.
Qed.

Lemma aggregated_add_edges (js : list (Z * Z * float)) (g : t) :
  aggregated g → aggregated (add_edges g js).
Proof.
  revert g. induction js as [|[[u v] w] js IH]; intros g Hg; [done|].
  apply IH. by apply aggregated_add_edge.
Qed.

Lemma judgements_add_edges (js : list (Z * Z * float)) (g : t) :
  judgements (add_edges g js) = (judgements g + length js)%nat.
Proof.
  revert g. induction js as [|[[u v] w] js IH]; intros g; simpl; [lia|].
  unfold add_edges in IH. rewrite IH, judgements_add_edge. lia.
Qed.

(** The history of a pair is the sequence of the values judged for it, in
    the order of the calls, whichever way round the pair was given. *)
Lemma history_add_edges (js : list (Z * Z * float)) (g : t) (k : Z * Z) :
  history (add_edges g js) k
  = history g k
    ++ map (λ e, stored e.2)
         (filter (λ e, sorted2 e.1.1 e.1.2 = k) js).
Proof.
  revert g. induction js as [|[[u v] w] js IH]; intros g; simpl.
  - by rewrite app_nil_r.
  - unfold add_edges in IH. rewrite IH, history_add_edge.
    rewrite filter_cons. simpl.
    destruct (decide (sorted2 u v = k)); simpl; [|done].
    by rewrite <- app_assoc.
Qed.
End annotated_graph_facts.

(** ** Scenarios and claims on judgement recording *)

Section recording.
Import Py AnnotatedGraph.



(** C2: after any sequence of judgements recorded on an empty annotated
    graph, every pair's current weight is the median of the numeric
    entries of its history (no weight when there is none), its soft weight
    is that weight minus 2.5, the graph's edge carries the same weight,
    the history is the sequence of values judged for the pair and the
    judgement count is the number of appends; in scenario S1 the weight of
    (0,1) is 3, its soft weight 1/2 and the count 4. *)
Theorem C2_median_aggregation :
  (∀ (N : nat) (js : list (Z * Z * float)) (k : Z * Z),
      let g := add_edges (init N) js in
      edge_weight g !! k = weight_of (history g k) ∧
      edge_soft_weight g !! k
        = (λ w, (w - two_and_half)%Qc) <$> edge_weight g !! k ∧
      G_edges g !! k = edge_weight g !! k ∧
      history g k
        = map (λ e, stored e.2) (filter (λ e, sorted2 e.1.1 e.1.2 = k) js) ∧
      get_num_added_edges g = length js) ∧
  (∀ N : nat,
      let g := add_edges (init N)
                 [(0, 1, Num (Q2Qc 3)); (0, 1, Num (Q2Qc 4));
                  (0, 1, NaN); (0, 1, Num (Q2Qc 1))] in
      edge_weight g !! (0, 1) = Some (Q2Qc 3) ∧
      edge_soft_weight g !! (0, 1) = Some (Q2Qc (1 # 2)) ∧
      get_num_added_edges g = 4%nat).
Proof.
  split.
  - intros N js k g.
    destruct (aggregated_add_edges js (init N) (aggregated_init N) k)
      as (Hw & Hs & HG).
    repeat split; try done.
    + subst g. by rewrite history_add_edges.
    + subst g. unfold get_num_added_edges. by rewrite judgements_add_edges.
  - intros N. vm_compute. repeat split.
Qed.
End recording.

Section endpoints.
Import Py AnnotatedGraph.

(** C8, as stated, fails: a judgement of the pair (1,1) is not rejected;
    it is counted and a self-loop is recorded in the graph. *)
Lemma C8_self_loop_recorded :
  let g := add_edge (init 2) 1 1 (Num (Q2Qc 3)) in
  G_edges g !! (1, 1) = Some (Q2Qc 3) ∧
  edge_weight g !! (1, 1) = Some (Q2Qc 3) ∧
  history g (1, 1) = [Num (Q2Qc 3)] ∧
  get_num_added_edges g = 1%nat.
Proof. vm_compute. repeat split. Qed.

(** C8, amended: [add_edge] has no check on its endpoints. For equal
    nodes u == v and every value the judgement is recorded like any
    other: it is appended to the history of (u,u), counted, remembered as
    the last edge, and as soon as that history has a numeric entry the
    self-loop (u,u) is in the graph with the median as its weight. *)
Theorem C8_self_loop_accepted (g : t) (u : Z) (value : float) :
  let g' := add_edge g u u value in
  history g' (u, u) = history g (u, u) ++ [stored value] ∧
  get_num_added_edges g' = S (get_num_added_edges g) ∧
  get_last_added_edge g' = Some (u, u) ∧
  ∀ m, nanmedian (history g' (u, u)) = Num m →
       G_edges g' !! (u, u) = Some m ∧ edge_weight g' !! (u, u) = Some m ∧
       u ∈ G_nodes g'.
Proof.
  intros g'. subst g'. split; [|split; [|split]]; [| | |intros m H; repeat split].
  - rewrite history_add_edge, sorted2_eq. by rewrite decide_True.
  - apply judgements_add_edge.
  - apply last_edge_add_edge.
  - revert H. rewrite history_add_edge, sorted2_eq, decide_True by done.
    unfold add_edge, stored, history. rewrite sorted2_eq.
    intros ->. simpl. apply lookup_insert_eq.
  - revert H. rewrite history_add_edge, sorted2_eq, decide_True by done.
    unfold add_edge, stored, history. rewrite sorted2_eq.
    intros ->. simpl. apply lookup_insert_eq.
  - revert H. rewrite history_add_edge, sorted2_eq, decide_True by done.
    unfold add_edge, stored, history. rewrite sorted2_eq.
    intros ->. simpl. set_solver.
Qed.

Lemma C8_self_loop_accepted_witness :
  nanmedian (history (add_edge (init 2) 1 1 (Num (Q2Qc 3))) (1, 1))
  = Num (Q2Qc 3) ∧
  G_edges (add_edge (init 2) 1 1 (Num (Q2Qc 3))) !! (1, 1) = Some (Q2Qc 3).
Proof.
  assert (H : nanmedian (history (add_edge (init 2) 1 1 (Num (Q2Qc 3))) (1, 1))
              = Num (Q2Qc 3)) by (vm_compute; reflexivity).
  split; [exact H|].
  exact (proj1 (proj2 (proj2 (proj2
    (C8_self_loop_accepted (init 2) 1 (Num (Q2Qc 3))))) (Q2Qc 3) H)).
Defined.

(** [add_edge] only looks at the order of its endpoints to fill
    [last_edge]. *)
Lemma add_edge_canonical (g : t) (u v : Z) (w : float) :
  add_edge g u v w
  = with_last_edge (Some (u, v))
      (add_edge g (sorted2 u v).1 (sorted2 u v).2 w).
Proof.
  unfold add_edge at 2. rewrite sorted2_idemp.
  unfold add_edge. destruct (sorted2 u v) as [a b].
  by destruct (nanmedian _).
Qed.

Lemma add_edge_with_last_edge (g : t) e (u v : Z) (w : float) :
  add_edge (with_last_edge e g) u v w = add_edge g u v w.
Proof. unfold add_edge. by destruct (sorted2 u v). Qed.

(** C9, as stated, fails: after (0,1,3) then (1,0,4) the last edge is
    (1,0) and the last node 0, while after the same judgements given in
    sorted order they are (0,1) and 1. *)
Lemma C9_last_edge_differs :
  let a := add_edge (add_edge (init 2) 0 1 (Num (Q2Qc 3))) 1 0 (Num (Q2Qc 4)) in
  let b := add_edge (add_edge (init 2) 0 1 (Num (Q2Qc 3))) 0 1 (Num (Q2Qc 4)) in
  get_last_added_edge a = Some (1, 0) ∧ get_last_added_edge b = Some (0, 1) ∧
  get_last_added_node a = Some 0 ∧ get_last_added_node b = Some 1 ∧
  a ≠ b.
Proof.
  vm_compute. repeat split. intros H. discriminate (f_equal last_edge H).
Qed.

(** C9, amended: recording (u,v,x) then (v,u,y) yields the state obtained
    by recording both judgements under the sorted pair, except for
    [last_edge], which holds the endpoints in the order of the last call:
    histories, weights, soft weights, graph, reverse index and judgement
    count coincide, [get_edge] answers alike, the last edge is (v,u), and
    the two states are equal whenever v <= u. *)
Theorem C9_endpoint_order (g : t) (u v : Z) (x y : float) :
  let c := sorted2 u v in
  let a := add_edge (add_edge g u v x) v u y in
  let b := add_edge (add_edge g c.1 c.2 x) c.1 c.2 y in
  a = with_last_edge (Some (v, u)) b ∧
  (∀ k, history a k = history b k) ∧
  edge_weight a = edge_weight b ∧
  edge_soft_weight a = edge_soft_weight b ∧
  G_edges a = G_edges b ∧
  weight_edge a = weight_edge b ∧
  get_num_added_edges a = get_num_added_edges b ∧
  (∀ p q, get_edge a p q = get_edge b p q) ∧
  get_last_added_edge a = Some (v, u) ∧
  get_last_added_edge b = Some c ∧
  (v ≤ u → a = b).
Proof.
  intros c a b.
  assert (Hab : a = with_last_edge (Some (v, u)) b).
  { subst a b c. rewrite (add_edge_canonical _ v u), sorted2_comm.
    rewrite (add_edge_canonical g u v), add_edge_with_last_edge. done. }
  assert (Hb : last_edge b = Some c).
  { subst b. rewrite last_edge_add_edge. by destruct c. }
  split; [done|]. rewrite Hab.
  repeat split; try done.
  rewrite <- Hab. intros Hvu.
  assert (c = (v, u)) as Hc.
  { subst c. unfold sorted2. destruct (Z.ltb_spec v u); [done|].
    by replace v with u by lia. }
  rewrite Hab. rewrite <- Hc, <- Hb. by destruct b.
Qed.

Lemma C9_endpoint_order_witness :
  1 ≤ 2 ∧
  add_edge (add_edge (init 3) 2 1 (Num (Q2Qc 3))) 1 2 (Num (Q2Qc 4))
  = add_edge (add_edge (init 3) 1 2 (Num (Q2Qc 3))) 1 2 (Num (Q2Qc 4)).
Proof.
  assert (H : 1 ≤ 2) by lia.
  split; [exact H|].
  exact (proj2 (proj2 (proj2 (proj2 (proj2 (proj2 (proj2 (proj2 (proj2 (proj2
    (C9_endpoint_order (init 3) 2 1 (Num (Q2Qc 3)) (Num (Q2Qc 4)))))))))))) H).
Defined.

(** C10: for every pair of nodes, a judgement of value 0 is recorded
    exactly as a MISSING one: the states are equal, the sentinel NaN is
    what the history receives, the sentinel leaves the median unchanged,
    and a history of zeros only materializes no edge weight while every
    one of the judgements is counted. *)
Theorem C10_zero_is_missing :
  (∀ (g : t) (u v : Z),
      add_edge g u v (Num 0%Qc) = add_edge g u v NaN ∧
      history (add_edge g u v (Num 0%Qc)) (sorted2 u v)
        = history g (sorted2 u v) ++ [NaN] ∧
      nanmedian (history (add_edge g u v (Num 0%Qc)) (sorted2 u v))
        = nanmedian (history g (sorted2 u v))) ∧
  (∀ (N n : nat) (u v : Z),
      let g := add_edges (init N) (replicate n (u, v, Num 0%Qc)) in
      edge_weight g = ∅ ∧ edge_soft_weight g = ∅ ∧ G_edges g = ∅ ∧
      history g (sorted2 u v) = replicate n NaN ∧
      get_num_added_edges g = n).
Proof.
  split.
  - intros g u v. split; [done|].
    rewrite history_add_edge, decide_True by done.
    split; [done|]. apply nanmedian_app_NaN.
  - intros N n u v g.
    assert (Hh : history g (sorted2 u v) = replicate n NaN).
    { subst g. rewrite history_add_edges.
      change (history (init N) (sorted2 u v)) with (@nil float).
      rewrite app_nil_l.
      induction n as [|n IH]; [done|].
      simpl. rewrite filter_cons. simpl. rewrite decide_True by done.
      simpl. by rewrite IH. }
    assert (Hall : ∀ k, weight_of (history g k) = None).
    { intros k. subst g. rewrite history_add_edges.
      change (history (init N) k) with (@nil float).
      rewrite app_nil_l. unfold weight_of.
      replace (nanmedian _) with NaN; [done|].
      symmetry. apply nanmedian_NaN.
      clear Hh. induction n as [|n IH]; [done|].
      simpl. rewrite filter_cons. simpl.
      destruct (decide _); simpl; done. }
    pose proof (aggregated_add_edges (replicate n (u, v, Num 0%Qc))
                  (init N) (aggregated_init N)) as Hagg.
    fold g in Hagg.
    repeat split; try done.
    + apply map_eq. intros k. destruct (Hagg k) as (-> & _ & _).
      by rewrite Hall, lookup_empty.
    + apply map_eq. intros k. destruct (Hagg k) as (Hw & -> & _).
      by rewrite Hw, Hall, lookup_empty.
    + apply map_eq. intros k. destruct (Hagg k) as (Hw & _ & ->).
      by rewrite Hw, Hall, lookup_empty.
    + subst g. unfold get_num_added_edges.
      rewrite judgements_add_edges. simpl. by rewrite length_replicate.
Qed.
End endpoints.

(** ** Cluster labels *)

Section labels.
Import Py AnnotatedGraph.

Lemma setitem_in_range (ls : list Z) (i k : Z) :
  0 ≤ i < Z.of_nat (length ls) →
  setitem ls i k = Some (<[Z.to_nat i := k]> ls).
Proof. intros Hi. unfold setitem. by rewrite bool_decide_eq_true_2. Qed.

Lemma label_nodes_lookup (k : Z) (v : list Z) (ls : list Z) :
  (∀ n, n ∈ v → 0 ≤ n < Z.of_nat (length ls)) →
  ∃ ls', label_nodes k v ls = Some ls' ∧ length ls' = length ls ∧
    ∀ i : nat, ls' !! i
               = if decide (Z.of_nat i ∈ v) then Some k else ls !! i.
Proof.
  revert ls. induction v as [|n v IH]; intros ls Hv.
  - exists ls. split; [done|]. split; [done|].
    intros i. rewrite decide_False; [done|]. apply not_elem_of_nil.
  - change (label_nodes k (n :: v) ls)
      with (setitem ls n k ≫= label_nodes k v).
    rewrite setitem_in_range by (apply Hv; left).
    change (Some (<[Z.to_nat n:=k]> ls) ≫= label_nodes k v)
      with (label_nodes k v (<[Z.to_nat n:=k]> ls)).
    destruct (IH (<[Z.to_nat n := k]> ls)) as (ls' & -> & Hlen & Hl).
    { intros m Hm. rewrite length_insert. apply Hv. by right. }
    exists ls'. rewrite length_insert in Hlen.
    split; [done|]. split; [done|].
    intros i. rewrite Hl.
    assert (0 ≤ n < Z.of_nat (length ls)) as Hn by (apply Hv; left).
    destruct (decide (Z.of_nat i ∈ v)) as [Hi|Hi].
    + rewrite decide_True; [done | by right].
    + destruct (decide (Z.of_nat i = n)) as [<-|Hne].
      * rewrite decide_True by left. rewrite Nat2Z.id.
        apply list_lookup_insert_eq. lia.
      * rewrite decide_False.
        -- apply list_lookup_insert_ne. lia.
        -- intros [?|?]%elem_of_cons; done.
Qed.

Lemma label_clusters_lookup (cn : list (Z * list Z)) (ls : list Z) :
  nodes_in_range (length ls) cn →
  ∃ ls', label_clusters cn ls = Some ls' ∧ length ls' = length ls ∧
    ∀ i : nat, ls' !! i
               = match last_mention cn (Z.of_nat i) with
                 | Some k => Some k
                 | None => ls !! i
                 end.
Proof.
  revert ls. induction cn as [|[k v] cn IH]; intros ls Hr.
  - by exists ls.
  - change (label_clusters ((k, v) :: cn) ls)
      with (label_nodes k v ls ≫= label_clusters cn).
    destruct (label_nodes_lookup k v ls) as (ls1 & -> & Hlen1 & Hl1).
    { intros n Hn. apply (Hr k v); [left | done]. }
    change (Some ls1 ≫= label_clusters cn) with (label_clusters cn ls1).
    destruct (IH ls1) as (ls' & -> & Hlen & Hl).
    { rewrite Hlen1. intros k' v' n Hin. apply (Hr k' v'). by right. }
    exists ls'. split; [done|]. split; [congruence|].
    intros i. rewrite Hl, Hl1.
    change (last_mention ((k, v) :: cn) (Z.of_nat i))
      with (match last_mention cn (Z.of_nat i) with
            | Some k' => Some k'
            | None => if decide (Z.of_nat i ∈ v) then Some k else None
            end).
    destruct (last_mention cn (Z.of_nat i)); [done|].
    by destruct (decide (Z.of_nat i ∈ v)).
Qed.

Lemma last_mention_Some (cn : list (Z * list Z)) (n k : Z) :
  last_mention cn n = Some k → ∃ v, (k, v) ∈ cn ∧ n ∈ v.
Proof.
  induction cn as [|[k' v'] cn IH]; simpl; [done|].
  destruct (last_mention cn n) as [k''|].
  - intros [= ->]. destruct IH as (v & Hin & Hn); [done|].
    exists v. split; [by right | done].
  - destruct (decide (n ∈ v')); [|done].
    intros [= ->]. exists v'. split; [left | done].
Qed.

Lemma last_mention_None (cn : list (Z * list Z)) (n : Z) :
  last_mention cn n = None ↔ ¬ mentioned cn n.
Proof.
  induction cn as [|[k v] cn IH]; simpl.
  - split; [|done]. intros _ (k & v & Hin & _). by apply elem_of_nil in Hin.
  - destruct (last_mention cn n) as [k'|] eqn:Hl.
    + split; [done|]. intros Hm. exfalso. apply Hm.
      apply last_mention_Some in Hl as (v' & Hin & Hn).
      exists k', v'. split; [by right | done].
    + destruct (decide (n ∈ v)) as [Hn|Hn].
      * split; [done|]. intros Hm. exfalso. apply Hm.
        exists k, v. split; [left | done].
      * split; [|done]. intros _ (k' & v' & Hin & Hn').
        apply elem_of_cons in Hin as [[= -> ->]|Hin]; [done|].
        apply (proj1 IH eq_refl). by exists k', v'.
Qed.

(** C7, as stated, fails: node 0, labelled by a first call and not
    mentioned by the second, keeps label 0 instead of -1. *)
Lemma C7_stale_label :
  ∃ g g',
    update_community_nodes_membership (init 2) [(0, [0])] = Some g ∧
    update_community_nodes_membership g [(0, [1])] = Some g' ∧
    ¬ mentioned [(0, [1])] 0 ∧
    labels g' !! 0%nat = Some 0 ∧ labels g' !! 0%nat ≠ Some (-1).
Proof.
  eexists _, _. split; [reflexivity|]. split; [reflexivity|].
  split; [|split; [reflexivity | discriminate]].
  intros (k & v & Hin & Hn).
  apply list_elem_of_singleton in Hin as [= -> ->].
  by apply list_elem_of_singleton in Hn.
Qed.

Lemma last_mention_last (l1 l2 : list (Z * list Z)) (k : Z) (v : list Z)
    (n : Z) :
  n ∈ v → (∀ k' v', (k', v') ∈ l2 → n ∉ v') →
  last_mention (l1 ++ (k, v) :: l2) n = Some k.
Proof.
  intros Hn Hl2.
  assert (H2 : last_mention l2 n = None).
  { apply last_mention_None. intros (k' & v' & Hin & Hn').
    by apply (Hl2 k' v'). }
  induction l1 as [|[k1 v1] l1 IH]; simpl.
  - rewrite H2. by rewrite decide_True.
  - by rewrite IH.
Qed.

(** C7, amended: a call of [update_community_nodes_membership] whose
    mapping lists only nodes in [0, max_nodes) succeeds, replaces the
    community table by the mapping, and gives every listed node the id of
    the last cluster, in the order of the mapping, that lists it: the id
    of its cluster whenever all clusters listing it share that id, hence
    a label >= 0 when ids are >= 0. A node that is not listed keeps the
    label it had before the call; labels are never reset to -1. *)
Theorem C7_update_labels (g : t) (new : list (Z * list Z)) :
  length (labels g) = max_nodes g →
  nodes_in_range (max_nodes g) new →
  ∃ g',
    update_community_nodes_membership g new = Some g' ∧
    community_nodes g' = new ∧
    length (labels g') = max_nodes g' ∧
    (∀ (n : nat) l1 k v l2,
        new = l1 ++ (k, v) :: l2 → Z.of_nat n ∈ v →
        (∀ k' v', (k', v') ∈ l2 → Z.of_nat n ∉ v') →
        labels g' !! n = Some k) ∧
    (∀ n : nat,
        labels g' !! n = match last_mention new (Z.of_nat n) with
                         | Some k => Some k
                         | None => labels g !! n
                         end) ∧
    (∀ (n : nat) k v,
        (k, v) ∈ new → Z.of_nat n ∈ v →
        (∀ k' v', (k', v') ∈ new → Z.of_nat n ∈ v' → k' = k) →
        labels g' !! n = Some k) ∧
    ((∀ k v, (k, v) ∈ new → 0 ≤ k) →
     ∀ n : nat, mentioned new (Z.of_nat n) →
                ∃ k, labels g' !! n = Some k ∧ 0 ≤ k) ∧
    (∀ n : nat, ¬ mentioned new (Z.of_nat n) →
                labels g' !! n = labels g !! n).
Proof.
  intros Hlen Hr. unfold update_community_nodes_membership.
  destruct (label_clusters_lookup new (labels g)) as (ls & -> & Hl & Hlk).
  { by rewrite Hlen. }
  simpl. eexists. split; [reflexivity|]. simpl.
  split; [done|]. split; [congruence|].
  assert (Hmen : ∀ n : nat, mentioned new (Z.of_nat n) →
            ∃ k v, last_mention new (Z.of_nat n) = Some k ∧
                   (k, v) ∈ new ∧ Z.of_nat n ∈ v).
  { intros n Hm. destruct (last_mention new (Z.of_nat n)) as [k|] eqn:Hlm.
    - destruct (last_mention_Some _ _ _ Hlm) as (v & ? & ?). by exists k, v.
    - by apply last_mention_None in Hlm. }
  split; [|split; [done|split; [|split]]].
  - intros n l1 k v l2 -> Hn Hl2.
    by rewrite Hlk, (last_mention_last l1 l2 k v).
  - intros n k v Hin Hn Huniq.
    destruct (Hmen n) as (k' & v' & Hlm & Hin' & Hn'); [by exists k, v|].
    rewrite Hlk, Hlm. f_equal. by apply (Huniq k' v').
  - intros Hpos n Hm.
    destruct (Hmen n Hm) as (k & v & Hlm & Hin & Hn).
    exists k. rewrite Hlk, Hlm. split; [done|]. by apply (Hpos k v).
  - intros n Hm. apply last_mention_None in Hm. by rewrite Hlk, Hm.
Qed.

Lemma C7_update_labels_witness :
  length (labels (init 3)) = max_nodes (init 3) ∧
  nodes_in_range (max_nodes (init 3)) [(0, [0; 1]); (1, [0; 2])] ∧
  ∃ g', update_community_nodes_membership (init 3) [(0, [0; 1]); (1, [0; 2])]
        = Some g' ∧
        community_nodes g' = [(0, [0; 1]); (1, [0; 2])] ∧
        labels g' !! 0%nat = Some 1.
Proof.
  assert (H1 : length (labels (init 3)) = max_nodes (init 3)) by reflexivity.
  assert (H2 : nodes_in_range (max_nodes (init 3)) [(0, [0; 1]); (1, [0; 2])]).
  { intros k v n Hin Hn. simpl.
    repeat (apply elem_of_cons in Hin as [Hin|Hin];
            [injection Hin as -> ->;
             repeat (apply elem_of_cons in Hn as [->|Hn]; [lia|]);
             by apply elem_of_nil in Hn|]).
    by apply elem_of_nil in Hin. }
  split; [exact H1|]. split; [exact H2|].
  destruct (C7_update_labels (init 3) [(0, [0; 1]); (1, [0; 2])] H1 H2)
    as (g' & Hg' & Hc & _ & Hlast & _).
  exists g'. split; [exact Hg'|]. split; [exact Hc|].
  apply (Hlast 0%nat [(0, [0; 1])] 1 [0; 2] []).
  - reflexivity.
  - left.
  - intros k' v' Hin. by apply elem_of_nil in Hin.
Defined.

(** On a freshly built graph every label is -1. *)
Lemma labels_init (N n : nat) :
  (n < N)%nat → labels (init N) !! n = Some (-1).
Proof. intros Hn. simpl. by apply lookup_replicate_2. Qed.
End labels.

(** ** Sorting by a key *)

Section sort_by_facts.
Import Py.
Context {A : Type} (key : A → Z).

Lemma insert_by_perm (x : A) (l : list A) : insert_by key x l ≡ₚ x :: l.
Proof.
  induction l as [|y l IH]; simpl; [done|].
  destruct (key y <? key x); [|done].
  rewrite IH. apply Permutation_swap.
Qed.

Lemma sort_by_perm (l : list A) : sort_by key l ≡ₚ l.
Proof.
  induction l as [|x l IH]; simpl; [done|].
  by rewrite insert_by_perm, IH.
Qed.

Lemma insert_by_sorted (x : A) (l : list A) :
  StronglySorted (λ a b, key a ≤ key b) l →
  StronglySorted (λ a b, key a ≤ key b) (insert_by key x l).
Proof.
  induction 1 as [|y l Hl IH Hy]; simpl.
  - repeat constructor.
  - destruct (Z.ltb_spec (key y) (key x)).
    + constructor; [done|].
      apply Forall_forall. intros z Hz.
      rewrite insert_by_perm in Hz.
      apply elem_of_cons in Hz as [->|Hz]; [lia|].
      by apply (proj1 (Forall_forall _ _) Hy).
    + constructor; [by constructor|].
      constructor; [lia|].
      eapply Forall_impl; [exact Hy|]. simpl. intros. lia.
Qed.

Lemma sort_by_sorted (l : list A) :
  StronglySorted (λ a b, key a ≤ key b) (sort_by key l).
Proof.
  induction l as [|x l IH]; simpl; [constructor|].
  by apply insert_by_sorted.
Qed.

Lemma sort_by_elem_of (l : list A) (x : A) : x ∈ sort_by key l ↔ x ∈ l.
Proof. by rewrite sort_by_perm. Qed.

Lemma insert_by_stable (k : Z) (x : A) (l : list A) :
  filter (λ a, key a = k) (insert_by key x l)
  = filter (λ a, key a = k) (x :: l).
Proof.
  induction l as [|y l IH]; simpl; [done|].
  destruct (Z.ltb_spec (key y) (key x)) as [Hlt|Hge]; [|done].
  rewrite !filter_cons in *.
  destruct (decide (key y = k)) as [Hy|Hy].
  - rewrite IH. destruct (decide (key x = k)); [lia | done].
  - exact IH.
Qed.

(** The sort is stable: the elements of one key come out in the order in
    which they went in. *)
Lemma sort_by_stable (k : Z) (l : list A) :
  filter (λ a, key a = k) (sort_by key l) = filter (λ a, key a = k) l.
Proof.
  induction l as [|x l IH]; simpl; [done|].
  rewrite insert_by_stable, !filter_cons. by rewrite IH.
Qed.
End sort_by_facts.

(** ** The conflict loss and the early return of the clusterer *)

Section clusterer_loss.
Import Py Eff Nx Clustering.
Local Open Scope Qc_scope.

Lemma getitem_inr (state : list nat) (i c : nat) :
  getitem state i = inr c ↔ state !! i = Some c.
Proof.
  unfold getitem. destruct (state !! i); split; intros H; by inversion H.
Qed.

(** One of the two sums of [conflict_loss]: when the loop returns, it has
    added [g e] for the edges that pass the test. *)
Lemma conflict_sum (state : list nat) (P : nat → nat → Prop)
    `{!∀ a b, Decision (P a b)} (g : nat * nat * Qc → Qc)
    (Q : nat * nat * Qc → Prop) `{!∀ e, Decision (Q e)}
    (l : list (nat * nat * Qc)) (acc r : Qc) :
  (∀ e a b, state !! e.1.1 = Some a → state !! e.1.2 = Some b →
            (P a b ↔ Q e)) →
  foldM (λ acc e,
           si ← getitem state e.1.1; sj ← getitem state e.1.2;
           inr (if bool_decide (P si sj) then acc + g e else acc))
        acc l = inr r →
  r = acc + sum_Qc (map g (filter Q l)).
Proof.
  intros HPQ. revert acc. induction l as [|e l IH]; intros acc; simpl.
  - intros [= <-]. ring.
  - destruct (getitem state e.1.1) as [|a] eqn:Ha; [done|].
    destruct (getitem state e.1.2) as [|b] eqn:Hb; [done|].
    simpl. intros Hr. apply IH in Hr. rewrite Hr.
    apply getitem_inr in Ha, Hb.
    rewrite filter_cons.
    destruct (decide (P a b)) as [HP|HP].
    + rewrite bool_decide_eq_true_2 by done.
      rewrite decide_True by (by apply (HPQ e a b)).
      simpl. ring.
    + rewrite bool_decide_eq_false_2 by done.
      rewrite decide_False; [done|].
      intros HQ. by apply HP, (HPQ e a b).
Qed.

(** Whenever [conflict_loss] returns, it returns the loss of the
    specification. *)
Lemma conflict_loss_loss (pos neg : list (nat * nat * Qc)) (state : list nat)
    (l : Qc) :
  conflict_loss pos neg state = inr l → l = loss pos neg state.
Proof.
  unfold conflict_loss, loss.
  destruct (foldM _ 0 pos) as [|lp] eqn:Hp; [done|].
  destruct (foldM _ 0 neg) as [|ln] eqn:Hn; [done|].
  simpl. intros [= <-].
  apply (conflict_sum state (λ a b, a ≠ b) (λ e, e.2)
           (λ e, state !! e.1.1 ≠ state !! e.1.2)) in Hp.
  2:{ intros e a b -> ->. split; [intros ? [=] | intros H ->]; done. }
  apply (conflict_sum state (λ a b, a = b) (λ e, Qcabs e.2)
           (λ e, state !! e.1.1 = state !! e.1.2)) in Hn.
  2:{ intros e a b -> ->. split; [by intros -> | by intros [=]]. }
  rewrite Hp, Hn. ring.
Qed.

Lemma prepare_loss (G : graph) (classes : list (list Z)) (p : prepared) :
  prepare G classes = inr p →
  p_loss_init p
  = loss (p_edges_positive p) (p_edges_negative p) (p_init_state p).
Proof.
  unfold prepare.
  destruct (n2c_of G classes) as [|n2c]; [done|]. simpl.
  destruct (indexed_edges G ge_zero) as [|pos]; [done|]. simpl.
  destruct (indexed_edges G lt_zero) as [|neg]; [done|]. simpl.
  destruct (conflict_loss pos neg _) as [|l] eqn:Hl; [done|]. simpl.
  intros [= <-]. simpl. by apply conflict_loss_loss.
Qed.
End clusterer_loss.

Section early_return.
Import Py Eff Nx Clustering.

Lemma sort_by_size_sorted (classes : list (list Z)) :
  StronglySorted (λ a b, (length b ≤ length a)%nat) (sort_by_size classes).
Proof.
  unfold sort_by_size.
  pose proof (sort_by_sorted (λ x : list Z, - Z.of_nat (length x)) classes)
    as Hs.
  induction Hs as [|x l Hl IH Hx]; constructor; [done|].
  eapply Forall_impl; [exact Hx|]. simpl. intros. lia.
Qed.

(** C3: whenever the loss of the initial assignment (the weights of the
    positive edges, w >= 0, across clusters plus the absolute weights of
    the negative edges, w < 0, inside clusters) is zero, the clusterer is
    the program that returns the initial classes, sorted by decreasing
    size and otherwise unchanged, at once: it contains no call of the
    annealer and no random draw. *)
Theorem C3_zero_loss_returns_initial (G : graph) (s : nat)
    (max_attempts max_iters : Z) (initial : list (list Z))
    (split_flag : bool) (p : prepared) :
  prepare G (initial_classes G initial) = inr p →
  loss (p_edges_positive p) (p_edges_negative p) (p_init_state p) = 0%Qc →
  indexed_edges G ge_zero = inr (p_edges_positive p) ∧
  indexed_edges G lt_zero = inr (p_edges_negative p) ∧
  cluster_correlation_search G s max_attempts max_iters initial split_flag
  = Ret (sort_by_size (initial_classes G initial)) ∧
  sort_by_size (initial_classes G initial) ≡ₚ initial_classes G initial ∧
  StronglySorted (λ a b, (length b ≤ length a)%nat)
                 (sort_by_size (initial_classes G initial)).
Proof.
  intros Hp Hloss.
  rewrite <- (prepare_loss _ _ _ Hp) in Hloss.
  assert (He : indexed_edges G ge_zero = inr (p_edges_positive p) ∧
               indexed_edges G lt_zero = inr (p_edges_negative p)).
  { revert Hp. unfold prepare.
    destruct (n2c_of G _) as [|n2c]; [done|]. simpl.
    destruct (indexed_edges G ge_zero) as [|pos]; [done|]. simpl.
    destruct (indexed_edges G lt_zero) as [|neg]; [done|]. simpl.
    destruct (conflict_loss pos neg _) as [|l]; [done|]. simpl.
    by intros [= <-]. }
  destruct He as [He1 He2].
  split; [done|]. split; [done|]. split; [|split].
  - unfold cluster_correlation_search. rewrite Hp. simpl.
    by rewrite Hloss.
  - apply sort_by_perm.
  - apply sort_by_size_sorted.
Qed.

Lemma C3_zero_loss_returns_initial_witness :
  ∃ p, prepare Scenario.S3_graph (initial_classes Scenario.S3_graph []) = inr p ∧
       loss (p_edges_positive p) (p_edges_negative p) (p_init_state p) = 0%Qc ∧
       cluster_correlation_search Scenario.S3_graph 10 200 5000 [] true
       = Ret [[0; 1; 2]; [3]].
Proof.
  eexists. split; [vm_compute; reflexivity|].
  split; [vm_compute; reflexivity|].
  match goal with
  | |- cluster_correlation_search _ _ _ _ _ _ = _ =>
    rewrite (proj1 (proj2 (proj2
      (C3_zero_loss_returns_initial Scenario.S3_graph 10 200 5000 [] true _
         ltac:(vm_compute; reflexivity) ltac:(vm_compute; reflexivity)))))
  end.
  vm_compute. reflexivity.
Defined.
End early_return.

(** ** Paths and the breadth-first search *)

Section paths.
Import Py Nx.

Lemma elem_of_adj (G : graph) (v d : Z) :
  d ∈ adj G v ↔ ∃ w, (v, d, w) ∈ edges G ∨ (d, v, w) ∈ edges G.
Proof.
  unfold adj. rewrite list_elem_of_In, in_flat_map. split.
  - intros ([[a b] w] & He%list_elem_of_In & Hd%list_elem_of_In).
    simpl in Hd. apply elem_of_app in Hd as [Hd|Hd].
    + destruct (bool_decide_reflect (a = v)) as [->|]; [|by apply elem_of_nil in Hd].
      apply list_elem_of_singleton in Hd as ->. eauto.
    + destruct (bool_decide_reflect (b = v)) as [->|]; [|by apply elem_of_nil in Hd].
      apply list_elem_of_singleton in Hd as ->. eauto.
  - intros (w & [He|He]).
    + exists (v, d, w). split; [by apply list_elem_of_In|].
      apply list_elem_of_In. simpl.
      rewrite bool_decide_eq_true_2 by done. apply elem_of_app. left. by left.
    + exists (d, v, w). split; [by apply list_elem_of_In|].
      apply list_elem_of_In. simpl. apply elem_of_app. right.
      rewrite bool_decide_eq_true_2 by done. by left.
Qed.

Lemma adj_sym (G : graph) (v d : Z) : d ∈ adj G v → v ∈ adj G d.
Proof. rewrite !elem_of_adj. intros (w & [H|H]); exists w; eauto. Qed.

Lemma adj_nodes (G : graph) (v d : Z) : wf G → d ∈ adj G v → d ∈ nodes G.
Proof.
  intros [_ Hwf]. rewrite elem_of_adj.
  intros (w & [H|H]); apply Hwf in H; tauto.
Qed.

(** More edges, more neighbours. *)
Lemma adj_mono (G G' : graph) (v d : Z) :
  edges G ⊆ edges G' → d ∈ adj G v → d ∈ adj G' v.
Proof.
  intros Hsub. rewrite !elem_of_adj.
  intros (w & [H|H]); exists w; [left | right]; by apply Hsub.
Qed.

Lemma linked_mono (G G' : graph) (c c' : list Z) (a b : Z) :
  edges G ⊆ edges G' → c ⊆ c' → linked G c a b → linked G' c' a b.
Proof.
  intros HG Hc. induction 1 as [a Ha|a b d _ IH Hd Hdc].
  - apply linked_refl. by apply Hc.
  - eapply linked_step; [exact IH | by eapply adj_mono | by apply Hc].
Qed.

Lemma linked_elem_of_l (G : graph) (c : list Z) (a b : Z) :
  linked G c a b → a ∈ c.
Proof. by induction 1. Qed.

Lemma linked_elem_of_r (G : graph) (c : list Z) (a b : Z) :
  linked G c a b → b ∈ c.
Proof. by destruct 1. Qed.

Lemma linked_step_front (G : graph) (c : list Z) (a b d : Z) :
  a ∈ c → b ∈ adj G a → linked G c b d → linked G c a d.
Proof.
  intros Ha Hb. induction 1 as [b Hbc|b e d _ IH Hd Hdc].
  - eapply linked_step; [by apply linked_refl | done | done].
  - eapply linked_step; [by apply IH | done | done].
Qed.

Lemma linked_sym (G : graph) (c : list Z) (a b : Z) :
  linked G c a b → linked G c b a.
Proof.
  induction 1 as [a Ha|a b d Hab IH Hd Hdc].
  - by apply linked_refl.
  - eapply linked_step_front; [done | by apply adj_sym | done].
Qed.

Lemma linked_trans (G : graph) (c : list Z) (a b d : Z) :
  linked G c a b → linked G c b d → linked G c a d.
Proof.
  intros Hab. induction 1 as [b Hb|b e d _ IH Hd Hdc]; [done|].
  eapply linked_step; [by apply IH | done | done].
Qed.

(** A set of nodes all linked to one of them is connected. *)
Lemma connected_from (G : graph) (c : list Z) (v : Z) :
  (∀ x, x ∈ c → linked G c v x) → connected G c.
Proof.
  intros Hv a b Ha Hb.
  eapply linked_trans; [apply linked_sym, Hv, Ha | apply Hv, Hb].
Qed.

(** A set closed under neighbours contains whatever is linked to one of
    its nodes. *)
Lemma closed_linked (G : graph) (s c : list Z) (a b : Z) :
  (∀ x y, x ∈ s → y ∈ adj G x → y ∈ s) →
  linked G c a b → a ∈ s → b ∈ s.
Proof.
  intros Hcl. induction 1 as [|a b d _ IH Hd _]; [done|].
  intros Ha. eapply Hcl; [by apply IH | done].
Qed.
End paths.

Section bfs.
Import Py Nx.
Context (G : graph) (Hwf : wf G).

Lemma visit_level_inv (v : Z) (thislevel seen nextlevel : list Z) :
  bfs_inv G v seen (thislevel ++ nextlevel) →
  bfs_inv G v (visit_level G thislevel seen nextlevel).1
              (visit_level G thislevel seen nextlevel).2 ∧
  (length seen ≤ length (visit_level G thislevel seen nextlevel).1)%nat ∧
  (length (visit_level G thislevel seen nextlevel).1 = length seen →
   (visit_level G thislevel seen nextlevel).2 = nextlevel).
Proof.
  revert seen nextlevel.
  induction thislevel as [|u l IH]; intros seen next Hinv; simpl.
  - done.
  - destruct Hinv as (Hnd & Hsn & Hpn & Hlk & Hpd & Hcl & Hv).
    destruct (bool_decide_reflect (u ∈ seen)) as [Hu|Hu].
    + apply IH. repeat split; try done.
      * set_solver.
      * intros y Hy. apply Hpd. set_solver.
      * intros x y Hx Hy. destruct (Hcl x y Hx Hy); set_solver.
      * set_solver.
    + assert (Hun : u ∈ nodes G) by set_solver.
      assert (Hadj : adj G u ⊆ nodes G).
      { intros y Hy. by eapply adj_nodes. }
      assert (Hmono : ∀ x, linked G seen v x → linked G (seen ++ [u]) v x).
      { intros x. apply linked_mono; set_solver. }
      destruct (IH (seen ++ [u]) (next ++ adj G u)) as (Hinv' & Hlen & _).
      { repeat split.
        - apply NoDup_app. repeat split; [done | | apply NoDup_singleton].
          intros x Hx ->%list_elem_of_singleton. done.
        - set_solver.
        - set_solver.
        - intros x [Hx| ->%list_elem_of_singleton]%elem_of_app.
          + by apply Hmono, Hlk.
          + destruct (Hpd u) as [->|(x & Hx & Hux)]; [set_solver | |].
            * apply linked_refl. set_solver.
            * eapply linked_step; [apply Hmono, Hlk, Hx | exact Hux |].
              set_solver.
        - intros y Hy.
          assert (y ∈ (u :: l) ++ next ∨ y ∈ adj G u) as [Hy'|Hy']
            by set_solver.
          + destruct (Hpd y Hy') as [?|(x & Hx & Hyx)]; [by left|].
            right. exists x. set_solver.
          + right. exists u. set_solver.
        - intros x y [Hx| ->%list_elem_of_singleton]%elem_of_app Hy.
          + destruct (Hcl x y Hx Hy); set_solver.
          + set_solver.
        - set_solver. }
      split; [done|]. rewrite length_app in Hlen. simpl in Hlen.
      split; [lia|]. intros Heq. lia.
Qed.

Lemma bfs_levels_nil (fuel : nat) (seen : list Z) :
  bfs_levels fuel G seen [] = seen.
Proof. by destruct fuel. Qed.

Lemma bfs_levels_inv (v : Z) (fuel : nat) (seen nextlevel : list Z) :
  bfs_inv G v seen nextlevel →
  (length (nodes G) - length seen < fuel)%nat →
  bfs_inv G v (bfs_levels fuel G seen nextlevel) [].
Proof.
  revert seen nextlevel.
  induction fuel as [|fuel IH]; intros seen next Hinv Hfuel; [lia|].
  destruct next as [|y next]; [done|].
  change (bfs_levels (S fuel) G seen (y :: next))
    with (let '(seen', nextlevel') := visit_level G (y :: next) seen [] in
          bfs_levels fuel G seen' nextlevel').
  destruct (visit_level_inv v (y :: next) seen []) as (Hinv' & Hlen & Hsame).
  { by rewrite app_nil_r. }
  destruct (visit_level G (y :: next) seen []) as [seen' next'].
  simpl in Hinv', Hlen, Hsame.
  destruct (decide (length seen' = length seen)) as [Heq|Hne].
  - rewrite (Hsame Heq) in Hinv' |- *. by rewrite bfs_levels_nil.
  - apply IH; [done|].
    destruct Hinv' as (Hnd & Hsn & _).
    assert (length seen' ≤ length (nodes G))%nat.
    { apply submseteq_length, NoDup_submseteq; [done|]. intros x. apply Hsn. }
    lia.
Qed.

(** The search from a node of the graph yields a duplicate-free set of
    nodes that contains the node, is connected, and is closed under
    neighbours. *)
Lemma plain_bfs_spec (v : Z) :
  v ∈ nodes G →
  v ∈ plain_bfs G v ∧ NoDup (plain_bfs G v) ∧ plain_bfs G v ⊆ nodes G ∧
  connected G (plain_bfs G v) ∧ closed G (plain_bfs G v).
Proof.
  intros Hv. unfold plain_bfs.
  destruct (bfs_levels_inv v (S (length (nodes G))) [] [v])
    as (Hnd & Hsn & _ & Hlk & _ & Hcl & Hin).
  { repeat split.
    - constructor.
    - intros x Hx. by apply elem_of_nil in Hx.
    - by intros x ->%list_elem_of_singleton.
    - intros x Hx. by apply elem_of_nil in Hx.
    - intros y ->%list_elem_of_singleton. by left.
    - intros x y Hx. by apply elem_of_nil in Hx.
    - right. by left. }
  { simpl. lia. }
  repeat split; try done.
  - destruct Hin as [?|Hin]; [done | by apply elem_of_nil in Hin].
  - by apply (connected_from G _ v).
  - intros x y Hx Hy. destruct (Hcl x y Hx Hy) as [?|Hnil]; [done|].
    by apply elem_of_nil in Hnil.
Qed.
End bfs.

Section components.
Import Py Nx.
Context (G : graph) (Hwf : wf G).

Lemma components_from_spec (vs seen : list Z) :
  vs ⊆ nodes G → seen ⊆ nodes G → closed G seen →
  Forall (λ c, connected G c ∧ NoDup c ∧ c ≠ [] ∧ closed G c)
         (components_from G vs seen) ∧
  NoDup (concat (components_from G vs seen)) ∧
  (∀ x, x ∈ concat (components_from G vs seen) → x ∈ nodes G ∧ x ∉ seen) ∧
  (∀ x, x ∈ vs → x ∈ seen ∨ x ∈ concat (components_from G vs seen)).
Proof.
  revert seen. induction vs as [|v vs IH]; intros seen Hvs Hseen Hcl.
  - simpl. repeat split; try constructor; set_solver.
  - simpl. destruct (bool_decide_reflect (v ∈ seen)) as [Hv|Hv].
    + destruct (IH seen) as (HF & Hnd & Hout & Hin); [set_solver | done | done|].
      repeat split; try done; [by apply Hout | by apply Hout |].
      intros x [->|Hx]%elem_of_cons; [by left | by apply Hin].
    + destruct (plain_bfs_spec G Hwf v) as (Hvc & Hndc & Hcn & Hconn & Hclc).
      { set_solver. }
      assert (Hdisj : ∀ x, x ∈ plain_bfs G v → x ∉ seen).
      { intros x Hx Hxs. apply Hv.
        eapply (closed_linked G seen); [done | | exact Hxs].
        by apply Hconn. }
      destruct (IH (seen ++ plain_bfs G v)) as (HF & Hnd & Hout & Hin).
      { set_solver. }
      { set_solver. }
      { intros x y [Hx|Hx]%elem_of_app Hy; apply elem_of_app.
        - left. by eapply Hcl.
        - right. by eapply Hclc. }
      simpl. repeat split.
      * constructor; [|done]. split; [done|]. split; [done|].
        split; [|done].
        intros Hnil. rewrite Hnil in Hvc. by apply elem_of_nil in Hvc.
      * apply NoDup_app. repeat split; [done | | done].
        intros x Hx Hx'. apply Hout in Hx' as [_ Hx']. set_solver.
      * apply elem_of_app in H as [Hx|Hx]; [by apply Hcn | by apply Hout].
      * apply elem_of_app in H as [Hx|Hx]; [by apply Hdisj|].
        apply Hout in Hx as [_ Hx]. set_solver.
      * intros x [->|Hx]%elem_of_cons.
        -- right. apply elem_of_app. by left.
        -- destruct (Hin x Hx) as [[?|?]%elem_of_app|?];
             [by left | right; apply elem_of_app; by left
             | right; apply elem_of_app; by right].
Qed.

(** [nx.connected_components]: connected, duplicate-free, non-empty sets
    of nodes that together hold every node of the graph exactly once. *)
Lemma connected_components_spec :
  Forall (λ c, connected G c ∧ NoDup c ∧ c ≠ [] ∧ closed G c)
         (connected_components G) ∧
  concat (connected_components G) ≡ₚ nodes G.
Proof.
  destruct (components_from_spec (nodes G) []) as (HF & Hnd & Hout & Hin).
  { done. }
  { set_solver. }
  { intros x y Hx. by apply elem_of_nil in Hx. }
  split; [done|].
  apply NoDup_Permutation; [done | by destruct Hwf |].
  intros x. split.
  - intros Hx. by apply Hout.
  - intros Hx. destruct (Hin x Hx) as [Hnil|?]; [|done].
    by apply elem_of_nil in Hnil.
Qed.
End components.

Section programs.
Import Eff.

Lemma every_run_bind {A B : Type} (p : prog A) (f : A → prog B)
    (Q : outcome B → Prop) :
  every_run p (λ o, match o with
                    | Returned a => every_run (f a) Q
                    | Raised e => Q (Raised e)
                    end) →
  every_run (bind p f) Q.
Proof.
  induction p as [a|e|n k IH|len mv ini ma mi k IH]; simpl; [done | done | |].
  - intros H i Hi. apply IH. by apply H.
  - intros H st fit Hlen Hval. apply IH. by apply H.
Qed.

Lemma every_run_mono {A : Type} (p : prog A) (Q Q' : outcome A → Prop) :
  (∀ o, Q o → Q' o) → every_run p Q → every_run p Q'.
Proof.
  intros HQ. induction p as [a|e|n k IH|len mv ini ma mi k IH]; simpl.
  - apply HQ.
  - apply HQ.
  - intros H i Hi. apply IH. by apply H.
  - intros H st fit Hlen Hval. apply IH. by apply H.
Qed.

Lemma every_run_random_choice {A : Type} (l : list A) (Q : outcome A → Prop) :
  l ≠ [] → (∀ x, x ∈ l → Q (Returned x)) → every_run (random_choice l) Q.
Proof.
  intros Hl HQ. destruct l as [|a l]; [done|]. simpl.
  intros i Hi. destruct ((a :: l) !! i) as [x|] eqn:Hx.
  - simpl. apply HQ. by eapply list_elem_of_lookup_2.
  - apply lookup_ge_None in Hx. simpl in Hx. lia.
Qed.
End programs.

Section split.
Import Py Eff Nx Clustering.

Lemma remove_dups_NoDup_id (l : list Z) : NoDup l → remove_dups l = l.
Proof.
  induction 1 as [|x l Hx Hl IH]; simpl; [done|].
  destruct (decide_rel elem_of x l) as [Hin|_]; [done|]. by rewrite IH.
Qed.

Lemma map_remove_dups_id (ls : list (list Z)) :
  Forall NoDup ls → map remove_dups ls = ls.
Proof.
  induction 1 as [|l ls Hl _ IH]; simpl; [done|].
  by rewrite remove_dups_NoDup_id, IH.
Qed.

Lemma wf_remove_edges_from (G : graph) (l : list (Z * Z)) :
  wf G → wf (remove_edges_from G l).
Proof.
  intros [Hnd He]. split; [done|]. simpl.
  intros i j w [_ Hin]%list_elem_of_filter. by apply He in Hin.
Qed.

Lemma wf_subgraph (G : graph) (cluster : list Z) :
  wf G → wf (subgraph G cluster).
Proof.
  intros [Hnd He]. split; simpl.
  - by apply NoDup_filter.
  - intros i j w [[Hi Hj] Hin]%list_elem_of_filter. simpl in Hi, Hj.
    apply He in Hin as [? ?]. split; by apply list_elem_of_filter.
Qed.

Lemma edges_remove_edges_from (G : graph) (l : list (Z * Z)) :
  edges (remove_edges_from G l) ⊆ edges G.
Proof. intros e [_ He]%list_elem_of_filter. done. Qed.

Lemma edges_subgraph (G : graph) (cluster : list Z) :
  edges (subgraph G cluster) ⊆ edges G.
Proof. intros e [_ He]%list_elem_of_filter. done. Qed.

(** What is left once the negative and the missing edges are removed is
    an edge of weight at least zero. *)
Lemma edges_without_negative (G : graph) :
  edges (remove_edges_from G (edges_negative_of G)) ⊆ edges (positive_edges G).
Proof.
  intros [[i j] w] [Hl He]%list_elem_of_filter. simpl in Hl.
  apply list_elem_of_filter. split; [|done]. simpl.
  unfold listed in Hl. apply orb_false_iff in Hl as [Hl _].
  apply bool_decide_eq_false in Hl.
  destruct (ge_zero w) eqn:Hw; [done|]. exfalso. apply Hl.
  unfold edges_negative_of.
  apply (list_elem_of_fmap_2 (λ e : Z * Z * float, (e.1.1, e.1.2)) _ (i, j, w)).
  apply list_elem_of_filter. split; [|done]. simpl.
  unfold non_evidence. destruct w as [|q]; [done|]. simpl in *.
  by rewrite Hw.
Qed.

Lemma connected_mono (G G' : graph) (c c' : list Z) :
  edges G ⊆ edges G' → (∀ x, x ∈ c ↔ x ∈ c') →
  connected G c → connected G' c'.
Proof.
  intros HG Hc Hconn a b Ha Hb.
  eapply linked_mono; [exact HG | | apply Hconn; by apply Hc].
  intros x. apply Hc.
Qed.

(** [cluster_connected_components]: the classes are connected by edges of
    weight at least zero, hold no node twice and together hold every node
    of the graph once. *)
Lemma cluster_connected_components_spec (G : graph) :
  wf G →
  Forall (λ c, positively_connected G c ∧ NoDup c ∧ c ≠ [] ∧
               closed (remove_edges_from G (edges_negative_of G)) c)
         (cluster_connected_components G) ∧
  concat (cluster_connected_components G) ≡ₚ nodes G.
Proof.
  intros Hwf. unfold cluster_connected_components.
  pose proof (wf_remove_edges_from G (edges_negative_of G) Hwf) as Hwf'.
  destruct (connected_components_spec _ Hwf') as [HF Hperm].
  rewrite map_remove_dups_id.
  2:{ eapply Forall_impl; [exact HF|]. by intros c (_ & ? & _). }
  split.
  - rewrite sort_by_perm.
    eapply Forall_impl; [exact HF|]. intros c (Hc & Hnd & Hne).
    split; [|done].
    eapply connected_mono; [apply edges_without_negative | done | exact Hc].
  - by rewrite sort_by_perm.
Qed.

Lemma positive_edges_subgraph (G : graph) (l : list (Z * Z)) (cluster : list Z) :
  edges (positive_edges (subgraph (remove_edges_from G l) cluster))
  ⊆ edges (positive_edges G).
Proof.
  intros e [Hw He]%list_elem_of_filter.
  apply list_elem_of_filter. split; [done|].
  by apply edges_subgraph, edges_remove_edges_from in He.
Qed.

(** The classes that one cluster is split into. *)
Lemma split_one_cluster (G : graph) (cluster : list Z) :
  wf G →
  let G' := remove_edges_from G (edges_negative_of G) in
  let out := map remove_dups (cluster_connected_components (subgraph G' cluster)) in
  Forall (λ c, positively_connected G c ∧ NoDup c ∧ c ≠ []) out ∧
  concat out ≡ₚ filter (λ n, n ∈ cluster) (nodes G).
Proof.
  intros Hwf G' out.
  assert (Hwf' : wf (subgraph G' cluster)).
  { by apply wf_subgraph, wf_remove_edges_from. }
  destruct (cluster_connected_components_spec _ Hwf') as [HF Hperm].
  unfold out. rewrite map_remove_dups_id.
  2:{ eapply Forall_impl; [exact HF|]. by intros c (_ & ? & _). }
  split; [|done].
  eapply Forall_impl; [exact HF|]. intros c (Hc & Hnd & Hne & _).
  split; [|done].
  eapply connected_mono; [apply positive_edges_subgraph | done | exact Hc].
Qed.

Lemma filter_elem_of_perm (cluster l : list Z) :
  NoDup cluster → NoDup l → cluster ⊆ l →
  filter (λ n, n ∈ cluster) l ≡ₚ cluster.
Proof.
  intros Hc Hl Hsub. apply NoDup_Permutation; [by apply NoDup_filter | done |].
  intros x. rewrite list_elem_of_filter. split; [by intros [? _]|].
  intros Hx. split; [done | by apply Hsub].
Qed.

Lemma split_classes_sound (G : graph) (clusters : list (list Z)) :
  wf G →
  Forall (λ c, positively_connected G c ∧ NoDup c ∧ c ≠ [])
         (split_classes (remove_edges_from G (edges_negative_of G)) clusters).
Proof.
  intros Hwf. induction clusters as [|cluster clusters IH]; simpl; [done|].
  apply Forall_app. split; [|exact IH].
  by apply (split_one_cluster G cluster).
Qed.

Lemma split_classes_nodes (G : graph) (clusters : list (list Z)) :
  wf G →
  concat (split_classes (remove_edges_from G (edges_negative_of G)) clusters)
  ≡ₚ concat (map (λ cluster, filter (λ n, n ∈ cluster) (nodes G)) clusters).
Proof.
  intros Hwf. induction clusters as [|cluster clusters IH]; simpl; [done|].
  rewrite concat_app, IH.
  apply Permutation_app_tail.
  by apply (split_one_cluster G cluster).
Qed.

Lemma split_classes_perm (G : graph) (clusters : list (list Z)) :
  wf G → NoDup (concat clusters) → concat clusters ⊆ nodes G →
  concat (split_classes (remove_edges_from G (edges_negative_of G)) clusters)
  ≡ₚ concat clusters.
Proof.
  intros Hwf Hnd Hsub. rewrite split_classes_nodes by done.
  induction clusters as [|cluster clusters IH]; simpl; [done|].
  simpl in Hnd, Hsub. apply NoDup_app in Hnd as (Hc & _ & Hcs).
  rewrite IH; [|done | set_solver].
  apply Permutation_app_tail.
  apply filter_elem_of_perm; [done | by destruct Hwf | set_solver].
Qed.

(** [split_non_evidence_clusters] returns classes connected by edges of
    weight at least zero, over the nodes it was given and as many of them;
    whenever the nodes or their count differ it exits. *)
Lemma split_non_evidence_clusters_spec (G : graph) (clusters : list (list Z)) :
  wf G →
  match split_non_evidence_clusters G clusters with
  | inr out =>
      Forall (positively_connected G) out ∧
      (list_to_set (concat out) : gset Z) = list_to_set (concat clusters) ∧
      length (concat out) = length (concat clusters)
  | inl e =>
      e = SystemExit ∧
      let out := split_classes (remove_edges_from G (edges_negative_of G))
                               clusters in
      (list_to_set (concat clusters) : gset Z) ≠ list_to_set (concat out) ∨
      length (concat clusters) ≠ length (concat out)
  end.
Proof.
  intros Hwf. unfold split_non_evidence_clusters.
  destruct (bool_decide_reflect
    ((list_to_set (concat clusters) : gset Z) ≠
     list_to_set (concat (split_classes
        (remove_edges_from G (edges_negative_of G)) clusters)))) as [Hs|Hs].
  { split; [done | by left]. }
  destruct (bool_decide_reflect
    (length (concat clusters) ≠
     length (concat (split_classes
        (remove_edges_from G (edges_negative_of G)) clusters)))) as [Hl|Hl].
  { split; [done | by right]. }
  split; [|split].
  - eapply Forall_impl; [by apply split_classes_sound|]. by intros c [? _].
  - symmetry. by destruct (decide (list_to_set (concat clusters) =
      (list_to_set (concat (split_classes
        (remove_edges_from G (edges_negative_of G)) clusters)) : gset Z))).
  - symmetry. by destruct (decide (length (concat clusters) =
      length (concat (split_classes
        (remove_edges_from G (edges_negative_of G)) clusters)))).
Qed.

(** On clusters that hold nodes of the graph, none of them twice, the
    split goes through. *)
Lemma split_non_evidence_clusters_total (G : graph) (clusters : list (list Z)) :
  wf G → NoDup (concat clusters) → concat clusters ⊆ nodes G →
  ∃ out, split_non_evidence_clusters G clusters = inr out ∧
         Forall (positively_connected G) out ∧
         concat out ≡ₚ concat clusters.
Proof.
  intros Hwf Hnd Hsub.
  pose proof (split_classes_perm G clusters Hwf Hnd Hsub) as Hperm.
  exists (split_classes (remove_edges_from G (edges_negative_of G)) clusters).
  split; [|split; [|done]].
  - unfold split_non_evidence_clusters.
    rewrite bool_decide_eq_false_2.
    2:{ intros Hne. apply Hne. apply set_eq. intros x.
        rewrite !elem_of_list_to_set. by rewrite Hperm. }
    rewrite bool_decide_eq_false_2; [done|].
    intros Hne. apply Hne. by rewrite Hperm.
  - eapply Forall_impl; [by apply split_classes_sound|]. by intros c [? _].
Qed.
End split.

Section after_the_search.
Import Py Eff Nx Clustering.

Lemma append_to_concat (c : nat) (x : Z) (c2n : list (nat * list Z)) :
  concat (map snd (append_to c x c2n)) ≡ₚ x :: concat (map snd c2n).
Proof.
  induction c2n as [|[c' l] rest IH]; simpl; [done|].
  destruct (bool_decide (c' = c)); simpl.
  - rewrite <- app_assoc. symmetry. apply Permutation_middle.
  - rewrite IH. symmetry. apply Permutation_middle.
Qed.

Lemma c2n_fold (G : graph) (ics : list (nat * nat)) (ns : list Z)
    (c2n0 : list (nat * list Z)) :
  Forall2 (λ ic n, nodes G !! ic.1 = Some n) ics ns →
  ∃ c2n,
    foldM (λ c2n ic, node ← i2n G ic.1; inr (append_to ic.2 node c2n))
          c2n0 ics = inr c2n ∧
    concat (map snd c2n) ≡ₚ concat (map snd c2n0) ++ ns.
Proof.
  intros H. revert c2n0.
  induction H as [|[i c] n ics ns Hn _ IH]; intros c2n0; simpl.
  - exists c2n0. by rewrite app_nil_r.
  - simpl in Hn.
    assert (i2n G i = inr n) as -> by (unfold i2n; by rewrite Hn).
    simpl.
    destruct (IH (append_to c n c2n0)) as (c2n & -> & Hperm).
    exists c2n. split; [done|].
    rewrite Hperm, append_to_concat. simpl. apply Permutation_middle.
Qed.

Lemma NoDup_concat_each (ls : list (list Z)) :
  NoDup (concat ls) → Forall NoDup ls.
Proof.
  induction ls as [|l ls IH]; simpl; [done|].
  intros (? & _ & ?)%NoDup_app. constructor; [done | by apply IH].
Qed.

Lemma NoDup_take_of (n : nat) (l : list Z) : NoDup l → NoDup (take n l).
Proof. intros H. eapply sublist_NoDup; first [exact H | apply sublist_take]. Qed.

(** The classes read off a state no longer than the list of nodes hold
    the nodes at the positions of the state, each once. *)
Lemma classes_of_state_spec (G : graph) (best_state : list nat) :
  wf G → (length best_state ≤ length (nodes G))%nat →
  ∃ classes, classes_of_state G best_state = inr classes ∧
             concat classes ≡ₚ take (length best_state) (nodes G).
Proof.
  intros [Hnd _] Hlen. unfold classes_of_state.
  destruct (c2n_fold G (imap (λ i c, (i, c)) best_state)
                     (take (length best_state) (nodes G)) []) as (c2n & -> & Hperm).
  { apply Forall2_same_length_lookup_2.
    - rewrite length_imap, length_take. lia.
    - intros i [i' c] n Hi Hn. rewrite list_lookup_imap in Hi.
      destruct (best_state !! i) as [c'|] eqn:Hc; [|done].
      simpl in Hi. injection Hi as <- <-. simpl.
      apply lookup_take_Some in Hn. by destruct Hn. }
  simpl in Hperm. simpl. eexists. split; [done|].
  assert (HF : Forall NoDup (map snd c2n)).
  { apply NoDup_concat_each. rewrite Hperm. by apply NoDup_take_of. }
  rewrite <- Hperm.
  replace (map (λ e : nat * list Z, remove_dups e.2) c2n)
    with (map remove_dups (map snd c2n)) by (by rewrite map_map).
  by rewrite map_remove_dups_id.
Qed.

Lemma min_key_fold (l : l2s_table) (m : Qc) :
  foldl (λ m e', if Qcleb m e'.1 then m else e'.1) m l ∈ m :: map fst l.
Proof.
  revert m. induction l as [|e l IH]; intros m; simpl; [by left|].
  destruct (Qcleb m e.1).
  - specialize (IH m). set_solver.
  - specialize (IH e.1). set_solver.
Qed.

(** [min(l2s.keys())] is a key of the table. *)
Lemma min_key_elem_of (l2s : l2s_table) :
  l2s ≠ [] → min_key l2s ∈ map fst l2s.
Proof. destruct l2s as [|e l]; [done|]. intros _. apply min_key_fold. Qed.

Lemma entries_of_min_key (l2s : l2s_table) :
  l2s ≠ [] → entries_of l2s (min_key l2s) ≠ [].
Proof.
  intros Hne. apply min_key_elem_of in Hne.
  apply list_elem_of_fmap in Hne as (e & He & Hin).
  intros Hnil.
  assert (Hx : e.2 ∈ entries_of l2s (min_key l2s)).
  { unfold entries_of. apply (list_elem_of_fmap_2 snd).
    apply list_elem_of_filter. by split. }
  rewrite Hnil in Hx. by apply elem_of_nil in Hx.
Qed.

Lemma entries_of_elem_of (l2s : l2s_table) (k : Qc) (x : list nat * nat) :
  x ∈ entries_of l2s k → ∃ e, e ∈ l2s ∧ e.2 = x.
Proof.
  unfold entries_of. intros (e & -> & [_ He]%list_elem_of_filter)%list_elem_of_fmap.
  by exists e.
Qed.

(** Every state in the table after the search has the length of the
    initial state or the number of nodes. *)
Lemma search_states (G : graph) (classes : list (list Z))
    (init_state : list nat) (max_attempts max_iters : Z) (ns : list nat)
    (l2s : l2s_table) :
  l2s ≠ [] →
  Forall (λ e, (length e.2.1 ≤ length (nodes G))%nat) l2s →
  every_run (search G classes init_state max_attempts max_iters ns l2s)
    (λ o, ∃ l2s', o = Returned l2s' ∧ l2s' ≠ [] ∧
                  Forall (λ e, (length e.2.1 ≤ length (nodes G))%nat) l2s').
Proof.
  revert l2s. induction ns as [|n ns IH]; intros l2s Hne HF; simpl.
  - by exists l2s.
  - intros st1 fit1 Hlen1 _ st2 fit2 Hlen2 _. apply IH.
    + by destruct l2s.
    + simpl. rewrite !Forall_app. repeat split; [done | |].
      * repeat constructor. simpl. lia.
      * repeat constructor. simpl. lia.
Qed.

Lemma length_omap_le {A B : Type} (f : A → option B) (l : list A) :
  (length (omap f l) ≤ length l)%nat.
Proof.
  unfold omap. induction l as [|x l IH]; simpl; [done|].
  destruct (f x); simpl; lia.
Qed.

Lemma length_init_state_of (G : graph) (n2c : gmap nat nat) :
  (length (init_state_of G n2c) ≤ length (nodes G))%nat.
Proof.
  unfold init_state_of.
  etrans; [apply length_omap_le|]. by rewrite length_seq.
Qed.

Lemma prepare_init_state (G : graph) (classes : list (list Z)) (p : prepared) :
  prepare G classes = inr p →
  (length (p_init_state p) ≤ length (nodes G))%nat.
Proof.
  unfold prepare.
  destruct (n2c_of G _) as [|n2c]; [done|]. simpl.
  destruct (indexed_edges G ge_zero) as [|pos]; [done|]. simpl.
  destruct (indexed_edges G lt_zero) as [|neg]; [done|]. simpl.
  destruct (conflict_loss pos neg _) as [|l]; [done|]. simpl.
  intros [= <-]. simpl. apply length_init_state_of.
Qed.

(** C4: on a graph as networkx holds it, [split_non_evidence_clusters]
    either returns classes that are each connected by edges of weight at
    least zero, with the same set of nodes and the same number of nodes as
    the clusters it was given, or exits, and it exits exactly when the
    sets or the numbers differ; and every run of the clusterer with the
    split flag on that starts from the connected components, or whose
    initial loss is not zero, returns clusters that are each connected by
    edges of weight at least zero, hold no node twice and hold nodes of
    the graph only. *)
Theorem C4_split_positive_components (G : graph) (s : nat)
    (max_attempts max_iters : Z) (initial : list (list Z)) (p : prepared) :
  wf G →
  prepare G (initial_classes G initial) = inr p →
  initial = [] ∨ p_loss_init p ≠ 0%Qc →
  (∀ clusters,
     match split_non_evidence_clusters G clusters with
     | inr out =>
         Forall (positively_connected G) out ∧
         (list_to_set (concat out) : gset Z) = list_to_set (concat clusters) ∧
         length (concat out) = length (concat clusters)
     | inl e =>
         e = SystemExit ∧
         let out := split_classes (remove_edges_from G (edges_negative_of G))
                                  clusters in
         (list_to_set (concat clusters) : gset Z) ≠ list_to_set (concat out) ∨
         length (concat clusters) ≠ length (concat out)
     end) ∧
  every_run
    (cluster_correlation_search G s max_attempts max_iters initial true)
    (λ o, ∃ classes, o = Returned classes ∧
                     Forall (positively_connected G) classes ∧
                     NoDup (concat classes) ∧
                     concat classes ⊆ nodes G).
Proof.
  intros Hwf Hp Hcase. split.
  { intros clusters. by apply split_non_evidence_clusters_spec. }
  unfold cluster_correlation_search. rewrite Hp. simpl.
  destruct (Qeq_bool (p_loss_init p) 0) eqn:Hloss.
  - destruct Hcase as [->|Hne].
    2:{ exfalso. apply Hne. apply Qc_is_canon. by apply Qeq_bool_iff. }
    simpl. eexists. split; [done|].
    destruct (cluster_connected_components_spec G Hwf) as [HF Hperm].
    unfold sort_by_size. rewrite sort_by_perm. split; [|split].
    + eapply Forall_impl; [exact HF|]. by intros c [? _].
    + rewrite Hperm. by destruct Hwf.
    + by rewrite Hperm.
  - apply every_run_bind.
    eapply every_run_mono; [|apply search_states].
    + intros o (l2s & -> & Hne & HF).
      apply every_run_bind. apply every_run_random_choice.
      { by apply entries_of_min_key. }
      intros best (e & He & <-)%entries_of_elem_of.
      rewrite Forall_forall in HF. specialize (HF e He).
      destruct (classes_of_state_spec G e.2.1 Hwf HF) as (cs & Hcs & Hperm).
      rewrite Hcs. simpl.
      assert (Hnd : NoDup (concat cs)).
      { rewrite Hperm. apply NoDup_take_of. by destruct Hwf. }
      assert (Hsub : concat cs ⊆ nodes G).
      { rewrite Hperm. apply sublist_subseteq, sublist_take. }
      destruct (split_non_evidence_clusters_total G cs Hwf Hnd Hsub)
        as (out & -> & Hout & Hperm').
      simpl. eexists. split; [done|].
      unfold sort_by_size. rewrite sort_by_perm, Hperm'. done.
    + done.
    + repeat constructor. simpl. by eapply prepare_init_state.
Qed.
End after_the_search.

(** ** Further properties of the annotated graph *)

Section annotated_graph_tables.
Import Py AnnotatedGraph.

Lemma add_edges_ind (P : t → Prop) (g : t) (js : list (Z * Z * float)) :
  P g → (∀ g u v x, P g → P (add_edge g u v x)) → P (add_edges g js).
Proof.
  intros Hg Hstep. revert g Hg.
  induction js as [|[[u v] x] js IH]; intros g Hg; [done|].
  apply IH. by apply Hstep.
Qed.

Lemma weight_edge_add_edge (g : t) (u v : Z) (x : float) (w : Qc)
    (l : list (Z * Z)) :
  weight_edge g !! w = Some l →
  ∃ l', weight_edge (add_edge g u v x) !! w = Some (l ++ l').
Proof.
  intros Hl. unfold add_edge.
  destruct (sorted2 u v) as [a b].
  destruct (nanmedian _) as [|m]; simpl.
  - exists []. by rewrite app_nil_r.
  - destruct (decide (m = w)) as [->|Hne].
    + rewrite lookup_insert_eq, Hl. by eexists.
    + rewrite lookup_insert_ne by done. exists []. by rewrite app_nil_r.
Qed.

Lemma indexed_add_edge (g : t) (u v : Z) (x : float) :
  indexed g → indexed (add_edge g u v x).
Proof.
  intros Hg k w Hk.
  assert (Hold : edge_weight g !! k = Some w →
                 ∃ l, weight_edge (add_edge g u v x) !! w = Some l ∧ k ∈ l).
  { intros H. destruct (Hg k w H) as (l & Hl & Hin).
    destruct (weight_edge_add_edge g u v x w l Hl) as (l' & Hl').
    exists (l ++ l'). split; [done|]. apply elem_of_app. by left. }
  revert Hk Hold. unfold add_edge.
  destruct (sorted2 u v) as [a b].
  destruct (nanmedian _) as [|m]; simpl; [by auto|].
  destruct (decide ((a, b) = k)) as [<-|Hne].
  - rewrite lookup_insert_eq. intros [= <-] _.
    rewrite lookup_insert_eq. eexists. split; [done|].
    apply elem_of_app. right. by left.
  - rewrite lookup_insert_ne by done. auto.
Qed.

(** X1: [add_edge] keeps the reverse index [weight_edge] complete and never
    cleans it. After any sequence of judgements on an empty graph every
    pair with a current weight is listed under that weight; a call of
    [add_edge] only ever appends to the lists; so a pair whose median has
    moved stays listed under the weight it no longer has, as (0,1) does
    under 4 after the judgements 4, 2 and 2, whose median is 2. *)
Theorem X1_weight_edge_index :
  (∀ (N : nat) (js : list (Z * Z * float)) (k : Z * Z) (w : Qc),
      let g := add_edges (init N) js in
      edge_weight g !! k = Some w →
      ∃ l, weight_edge g !! w = Some l ∧ k ∈ l) ∧
  (∀ (g : t) (u v : Z) (x : float) (w : Qc) (l : list (Z * Z)),
      weight_edge g !! w = Some l →
      ∃ l', weight_edge (add_edge g u v x) !! w = Some (l ++ l')) ∧
  (let g := add_edges (init 2) [(0, 1, Num (Q2Qc 4)); (0, 1, Num (Q2Qc 2));
                                (0, 1, Num (Q2Qc 2))] in
   edge_weight g !! (0, 1) = Some (Q2Qc 2) ∧
   weight_edge g !! Q2Qc 4 = Some [(0, 1)]).
Proof.
  split; [|split].
  - intros N js. simpl.
    apply (add_edges_ind indexed).
    + intros k w. simpl. by rewrite lookup_empty.
    + intros g u v x. apply indexed_add_edge.
  - apply weight_edge_add_edge.
  - vm_compute. by split.
Qed.

Lemma sorted2_le (u v a b : Z) : sorted2 u v = (a, b) → a ≤ b.
Proof.
  unfold sorted2. destruct (Z.ltb_spec v u); intros [= <- <-]; lia.
Qed.

Lemma endpoints_add_edge (g : t) (u v : Z) (x : float) :
  endpoints g → endpoints (add_edge g u v x).
Proof.
  intros [Hn Hk]. unfold add_edge.
  destruct (sorted2 u v) as [a b] eqn:Hab.
  apply sorted2_le in Hab.
  assert (Hkeys : ∀ h k,
            is_Some (<[(a, b) := h]> (edge_added_weights g) !! k) → k.1 ≤ k.2).
  { intros h k. destruct (decide ((a, b) = k)) as [<-|Hne]; [done|].
    rewrite lookup_insert_ne by done. apply Hk. }
  destruct (nanmedian _) as [|m]; split; simpl; try done; try apply Hkeys.
  intros n. rewrite !elem_of_union, !elem_of_singleton, Hn. split.
  - intros [[->| ->]|(k & Hs & Hend)].
    + exists (a, b). rewrite lookup_insert_eq. split; [by eexists | by left].
    + exists (a, b). rewrite lookup_insert_eq. split; [by eexists | by right].
    + exists k. split; [|done].
      destruct (decide ((a, b) = k)) as [<-|Hne].
      * rewrite lookup_insert_eq. by eexists.
      * by rewrite lookup_insert_ne.
  - intros (k & Hs & Hend).
    destruct (decide ((a, b) = k)) as [<-|Hne].
    + simpl in Hend. left. destruct Hend; [by left | by right].
    + rewrite lookup_insert_ne in Hs by done. right. by exists k.
Qed.

Lemma weight_of_is_Some (h : list float) :
  is_Some (weight_of h) ↔ numeric h ≠ [].
Proof.
  rewrite <- nanmedian_NaN. unfold weight_of.
  destruct (nanmedian h); split; intros H;
    first [done | by destruct H | by eexists].
Qed.

(** X2: after any sequence of judgements on an empty graph, the nodes of
    the graph are exactly the endpoints of the pairs that have at least
    one judgement other than MISSING (a node judged only with MISSING is
    not in the graph, and [max_nodes] puts no bound on the node ids), and
    every judged pair is stored with its smaller endpoint first. *)
Theorem X2_graph_nodes_are_endpoints :
  ∀ (N : nat) (js : list (Z * Z * float)),
    let g := add_edges (init N) js in
    (∀ n, n ∈ G_nodes g ↔
          ∃ k, numeric (history g k) ≠ [] ∧ (n = k.1 ∨ n = k.2)) ∧
    (∀ k, history g k ≠ [] → k.1 ≤ k.2).
Proof.
  intros N js g.
  assert (He : endpoints g).
  { apply (add_edges_ind endpoints); [|apply endpoints_add_edge].
    split; simpl.
    - intros n. split; [set_solver|].
      intros (k & Hs & _). rewrite lookup_empty in Hs. by destruct Hs.
    - intros k Hs. rewrite lookup_empty in Hs. by destruct Hs. }
  pose proof (aggregated_add_edges js (init N) (aggregated_init N)) as Ha.
  fold g in Ha. destruct He as [Hn Hk]. split.
  - intros n. rewrite Hn. split; intros (k & Hs & Hend); exists k; split;
      try done.
    + apply weight_of_is_Some. by rewrite <- (proj1 (Ha k)).
    + rewrite (proj1 (Ha k)). by apply weight_of_is_Some.
  - intros k Hh. apply Hk. unfold history in Hh.
    destruct (edge_added_weights g !! k); [by eexists | done].
Qed.
End annotated_graph_tables.

Section label_errors.
Import Py AnnotatedGraph.

Lemma setitem_None (l : list Z) (i x : Z) :
  setitem l i x = None ↔ ¬ valid_index (length l) i.
Proof.
  unfold setitem, valid_index.
  destruct (bool_decide_reflect (0 ≤ i < Z.of_nat (length l))) as [H1|H1].
  { split; [done | lia]. }
  destruct (bool_decide_reflect (- Z.of_nat (length l) ≤ i < 0)) as [H2|H2].
  { split; [done | lia]. }
  split; [lia | done].
Qed.

Lemma setitem_length (l l' : list Z) (i x : Z) :
  setitem l i x = Some l' → length l' = length l.
Proof.
  unfold setitem.
  destruct (bool_decide _); [intros [= <-]; apply length_insert|].
  destruct (bool_decide _); [intros [= <-]; apply length_insert | done].
Qed.

Lemma label_nodes_length (k : Z) (v ls ls' : list Z) :
  label_nodes k v ls = Some ls' → length ls' = length ls.
Proof.
  revert ls. induction v as [|n v IH]; intros ls; simpl.
  - by intros [= <-].
  - destruct (setitem ls n k) as [ls1|] eqn:H1; [|done]. simpl.
    intros H. rewrite (IH _ H). by eapply setitem_length.
Qed.

Lemma label_nodes_None (k : Z) (v ls : list Z) :
  label_nodes k v ls = None ↔ ∃ n, n ∈ v ∧ ¬ valid_index (length ls) n.
Proof.
  revert ls. induction v as [|n v IH]; intros ls; simpl.
  - split; [done|]. intros (n & Hn & _). by apply elem_of_nil in Hn.
  - destruct (setitem ls n k) as [ls1|] eqn:H1; simpl.
    + rewrite IH, (setitem_length _ _ _ _ H1).
      assert (Hn : valid_index (length ls) n).
      { destruct (decide (valid_index (length ls) n)) as [|Hno]; [done|].
        apply (setitem_None ls n k) in Hno. congruence. }
      split.
      * intros (m & Hm & Hbad). exists m. split; [by right | done].
      * intros (m & [->|Hm]%elem_of_cons & Hbad); [done|]. by exists m.
    + split; [|done]. intros _. exists n. split; [by left|].
      by apply (setitem_None ls n k).
Qed.

Lemma label_clusters_None (cn : list (Z * list Z)) (ls : list Z) :
  label_clusters cn ls = None ↔
  ∃ k v n, (k, v) ∈ cn ∧ n ∈ v ∧ ¬ valid_index (length ls) n.
Proof.
  revert ls. induction cn as [|[k v] cn IH]; intros ls; simpl.
  - split; [done|]. intros (k & v & n & H & _). by apply elem_of_nil in H.
  - destruct (label_nodes k v ls) as [ls1|] eqn:H1; simpl.
    + rewrite IH, (label_nodes_length _ _ _ _ H1).
      assert (Hok : ¬ ∃ n, n ∈ v ∧ ¬ valid_index (length ls) n).
      { rewrite <- (label_nodes_None k). congruence. }
      split.
      * intros (k' & v' & n & Hin & Hn & Hbad).
        exists k', v', n. split; [by right | done].
      * intros (k' & v' & n & [[= -> ->]|Hin]%elem_of_cons & Hn & Hbad).
        -- destruct Hok. by exists n.
        -- by exists k', v', n.
    + split; [|done]. intros _.
      apply label_nodes_None in H1 as (n & Hn & Hbad).
      exists k, v, n. split; [by left | done].
Qed.

(** X3: [update_community_nodes_membership] raises IndexError exactly when
    the mapping lists a node that is not an index of the label list, that
    is a node [n] outside [-len(labels), len(labels)); nodes at or beyond
    [max_nodes], which [add_edge] accepts, are such nodes on a fresh
    graph. A negative node id inside that range is accepted and labels a
    slot counted from the end of the list. *)
Theorem X3_update_labels_index_error :
  (∀ (g : t) (new : list (Z * list Z)),
      update_community_nodes_membership g new = None ↔
      ∃ k v n, (k, v) ∈ new ∧ n ∈ v ∧ ¬ valid_index (length (labels g)) n) ∧
  (∀ (N : nat) (k n : Z),
      Z.of_nat N ≤ n →
      update_community_nodes_membership (init N) [(k, [n])] = None) ∧
  (∀ (g : t) (k n : Z),
      - Z.of_nat (length (labels g)) ≤ n < 0 →
      labels <$> update_community_nodes_membership g [(k, [n])]
      = Some (<[Z.to_nat (Z.of_nat (length (labels g)) + n) := k]> (labels g))).
Proof.
  assert (H1 : ∀ (g : t) (new : list (Z * list Z)),
      update_community_nodes_membership g new = None ↔
      ∃ k v n, (k, v) ∈ new ∧ n ∈ v ∧ ¬ valid_index (length (labels g)) n).
  { intros g new. rewrite <- label_clusters_None.
    unfold update_community_nodes_membership.
    by destruct (label_clusters new (labels g)). }
  split; [exact H1|]. split.
  - intros N k n Hn. apply H1. exists k, [n], n.
    split; [by left|]. split; [by left|].
    unfold valid_index. simpl. rewrite length_replicate. lia.
  - intros g k n Hn. unfold update_community_nodes_membership. simpl.
    unfold setitem.
    rewrite bool_decide_eq_false_2 by lia.
    rewrite bool_decide_eq_true_2 by lia. done.
Qed.
End label_errors.

Section reading_edges.
Import Py AnnotatedGraph.

Lemma judged_add_edge (g : t) (u v : Z) (x : float) :
  judged g → judged (add_edge g u v x).
Proof.
  intros Hg k h. unfold add_edge.
  destruct (sorted2 u v) as [a b].
  assert (Hins : <[(a, b) := default [] (edge_added_weights g !! (a, b))
                             ++ [if ne_zero x then x else NaN]]>
                   (edge_added_weights g) !! k = Some h → h ≠ []).
  { destruct (decide ((a, b) = k)) as [<-|Hne].
    - rewrite lookup_insert_eq. intros [= <-]. by destruct (default _ _).
    - rewrite lookup_insert_ne by done. apply Hg. }
  by destruct (nanmedian _).
Qed.

(** X4: on a graph built by any sequence of judgements, [get_edge] returns
    None for a pair that was never judged and otherwise the current weight
    of the pair, or 0 when the pair has no weight because all its
    judgements are MISSING; the order of the two nodes does not matter. *)
Theorem X4_get_edge_reads_current_weight :
  ∀ (N : nat) (js : list (Z * Z * float)) (u v : Z),
    let g := add_edges (init N) js in
    get_edge g u v
    = (if decide (history g (sorted2 u v) = []) then None
       else Some (default 0%Qc (edge_weight g !! sorted2 u v))) ∧
    get_edge g v u = get_edge g u v.
Proof.
  intros N js u v g. split.
  - assert (Hj : judged g).
    { apply (add_edges_ind judged); [|apply judged_add_edge].
      intros k h. simpl. by rewrite lookup_empty. }
    pose proof (aggregated_add_edges js (init N) (aggregated_init N)
                                     (sorted2 u v)) as (Hw & _).
    fold g in Hw. rewrite Hw. unfold get_edge, history, weight_of.
    destruct (sorted2 u v) as [a b].
    destruct (edge_added_weights g !! (a, b)) as [h|] eqn:Hh.
    + change (default [] (Some h)) with h.
      apply Hj in Hh. case_decide; [done|].
      by destruct (nanmedian h).
    + change (default [] (@None (list float))) with (@nil float).
      by case_decide.
  - unfold get_edge. by rewrite (sorted2_comm u v).
Qed.
End reading_edges.

(** ** The helpers of the stopping criteria *)

Section stopping_utils.
Import Py Eff StoppingUtils.

Lemma length_padding_pad (list1 list2 : list Z) :
  length_padding list1 list2
  = (list1 ++ replicate (length list2 - length list1) 0,
     list2 ++ replicate (length list1 - length list2) 0).
Proof.
  unfold length_padding.
  destruct (bool_decide_reflect (length list1 = length list2)) as [He|Hne].
  { rewrite He, Nat.sub_diag. simpl. by rewrite !app_nil_r. }
  destruct (bool_decide_reflect (length list1 < length list2)%nat) as [Hlt|Hge].
  - replace (length list1 - length list2)%nat with 0%nat by lia.
    simpl. by rewrite app_nil_r.
  - replace (length list2 - length list1)%nat with 0%nat by lia.
    simpl. by rewrite app_nil_r.
Qed.

Lemma lookup_pad (l : list Z) (n i : nat) :
  (i < length l `max` n)%nat →
  (l ++ replicate (n - length l) 0) !! i = Some (default 0 (l !! i)).
Proof.
  intros Hi. destruct (decide (i < length l)%nat) as [Hlt|Hge].
  - rewrite lookup_app_l by done.
    destruct (lookup_lt_is_Some_2 l i Hlt) as [x Hx]. by rewrite Hx.
  - rewrite lookup_app_r by lia.
    rewrite (lookup_ge_None_2 l i) by lia. simpl.
    apply lookup_replicate_2. lia.
Qed.

(** X5: [length_padding] returns two lists of the same length, the larger
    of the two input lengths; each holds the entries of its input at the
    positions the input has and 0 at the others, so the longer input is
    returned as it is. *)
Theorem X5_length_padding :
  ∀ (list1 list2 : list Z),
    let r := length_padding list1 list2 in
    let n := (length list1 `max` length list2)%nat in
    length r.1 = n ∧ length r.2 = n ∧
    (∀ i, (i < n)%nat →
          r.1 !! i = Some (default 0 (list1 !! i)) ∧
          r.2 !! i = Some (default 0 (list2 !! i))) ∧
    ((length list2 ≤ length list1)%nat → r.1 = list1) ∧
    ((length list1 ≤ length list2)%nat → r.2 = list2).
Proof.
  intros list1 list2 r n. subst r n. rewrite length_padding_pad. simpl.
  rewrite !length_app, !length_replicate.
  split; [lia|]. split; [lia|]. split; [|split].
  - intros i Hi. split; apply lookup_pad; lia.
  - intros H. replace (length list2 - length list1)%nat with 0%nat by lia.
    simpl. by rewrite app_nil_r.
  - intros H. replace (length list1 - length list2)%nat with 0%nat by lia.
    simpl. by rewrite app_nil_r.
Qed.

Lemma clean_labels_loop (r1 c1 r2 c2 : list Z) (acc : list Z * list Z) :
  length r1 = length c1 → length r2 = length c2 →
  foldM (λ acc i,
           c ← item (c1 ++ c2) i;
           r ← item (r1 ++ r2) i;
           inr (if bool_decide (c ≠ -1) && bool_decide (r ≠ -1)
                then (acc.1 ++ [r], acc.2 ++ [c])
                else acc))
        acc (seq (length r1) (length r2))
  = inr (acc.1 ++ map fst (labelled_pairs r2 c2),
         acc.2 ++ map snd (labelled_pairs r2 c2)).
Proof.
  revert r1 c1 c2 acc.
  induction r2 as [|r r2 IH]; intros r1 c1 c2 acc H1 H2.
  - destruct c2; [|done]. simpl. rewrite !app_nil_r. by destruct acc.
  - destruct c2 as [|c c2]; [done|]. simpl in H2.
    simpl seq. simpl foldM.
    assert (Hc : item (c1 ++ c :: c2) (length r1) = inr c).
    { unfold item. rewrite H1. by rewrite list_lookup_middle. }
    assert (Hr : item (r1 ++ r :: r2) (length r1) = inr r).
    { unfold item. by rewrite list_lookup_middle. }
    rewrite Hc, Hr. simpl.
    specialize (IH (r1 ++ [r]) (c1 ++ [c]) c2).
    rewrite <- !app_assoc in IH. simpl in IH.
    rewrite length_app in IH. simpl in IH.
    replace (S (length r1)) with (length r1 + 1)%nat by lia.
    rewrite IH by (rewrite ?length_app; simpl; lia).
    unfold labelled_pairs. simpl. rewrite filter_cons. simpl.
    destruct (bool_decide_reflect (c ≠ -1)) as [Hc1|Hc1];
      destruct (bool_decide_reflect (r ≠ -1)) as [Hr1|Hr1]; simpl.
    + rewrite decide_True by done. simpl. by rewrite <- !app_assoc.
    + rewrite decide_False by tauto. done.
    + rewrite decide_False by tauto. done.
    + rewrite decide_False by tauto. done.
Qed.

(** X6: on label lists of equal length [clean_labels] returns, in order,
    the reference labels and the current labels of the positions at which
    neither list holds -1: two lists of one length that hold no -1. On
    lists of different lengths it raises AssertionError. *)
Theorem X6_clean_labels :
  ∀ (ref_labels current_labels : list Z),
    (length ref_labels = length current_labels →
     let ps := labelled_pairs ref_labels current_labels in
     clean_labels ref_labels current_labels = inr (map fst ps, map snd ps) ∧
     length (map fst ps) = length (map snd ps) ∧
     ((-1) ∉ map fst ps) ∧ ((-1) ∉ map snd ps)) ∧
    (length ref_labels ≠ length current_labels →
     clean_labels ref_labels current_labels = inl AssertionError).
Proof.
  intros ref cur. split.
  - intros Hlen ps. split; [|split; [|split]].
    + unfold clean_labels. rewrite bool_decide_eq_true_2 by done.
      exact (clean_labels_loop [] [] ref cur ([], []) eq_refl Hlen).
    + by rewrite !length_map.
    + intros ([r c] & Hr & [[_ H] _]%list_elem_of_filter)%list_elem_of_fmap.
      simpl in *. by subst.
    + intros ([r c] & Hc & [[H _] _]%list_elem_of_filter)%list_elem_of_fmap.
      simpl in *. by subst.
  - intros Hlen. unfold clean_labels. by rewrite bool_decide_eq_false_2.
Qed.

Lemma connections_cons (contains : Z * Z → bool) (u : Z) (f s : list Z) :
  connections contains (u :: f) s
  = Z.of_nat (length (filter (λ p, contains p = true) (map (pair u) s)))
    + connections contains f s.
Proof.
  unfold connections. cbn [flat_map].
  rewrite filter_app, length_app. lia.
Qed.

Lemma connections_nonneg (contains : Z * Z → bool) (f s : list Z) :
  0 ≤ connections contains f s.
Proof. unfold connections. lia. Qed.

Lemma count_row_spec (contains : Z * Z → bool) (u : Z) (s : list Z)
    (m count : Z) :
  0 ≤ count < Z.max 1 m →
  let k := Z.of_nat (length (filter (λ p, contains p = true)
                                    (map (pair u) s))) in
  count_row contains u s m count
  = if bool_decide (Z.max 1 m ≤ count + k) then None else Some (count + k).
Proof.
  revert count. induction s as [|v s IH]; intros count Hc k; subst k.
  - cbn. rewrite bool_decide_eq_false_2 by lia. f_equal. lia.
  - cbn [map count_row]. rewrite filter_cons.
    destruct (contains (u, v)) eqn:Huv.
    + rewrite decide_True by done. cbn [length].
      rewrite Nat2Z.inj_succ.
      destruct (bool_decide_reflect (m ≤ count + 1)) as [Hm|Hm].
      * rewrite bool_decide_eq_true_2 by lia. done.
      * rewrite IH by lia.
        repeat case_bool_decide; try lia; f_equal; lia.
    + rewrite decide_False by done. by apply IH.
Qed.

Lemma count_rows_spec (contains : Z * Z → bool) (f s : list Z) (m count : Z) :
  0 ≤ count < Z.max 1 m →
  let k := connections contains f s in
  count_rows contains f s m count
  = if bool_decide (Z.max 1 m ≤ count + k) then None else Some (count + k).
Proof.
  revert count. induction f as [|u f IH]; intros count Hc k; subst k.
  - unfold connections. cbn.
    rewrite bool_decide_eq_false_2 by lia. f_equal. lia.
  - rewrite connections_cons. cbn [count_rows].
    pose proof (connections_nonneg contains f s).
    rewrite count_row_spec by done.
    destruct (bool_decide_reflect
      (Z.max 1 m ≤ count + Z.of_nat (length (filter (λ p, contains p = true)
                                              (map (pair u) s))))) as [H1|H1].
    + rewrite bool_decide_eq_true_2 by lia. done.
    + rewrite IH by lia.
      repeat case_bool_decide; try lia; f_equal; lia.
Qed.

(** X7: [check_connectivity_two_clusters] returns True exactly when the
    number of pairs (u, v), u from the first community and v from the
    second, that the edge list contains is at least [min_connections] and
    at least 1: with [min_connections <= 0] one connecting pair is still
    required, and two communities of which one is empty are never
    connected. *)
Theorem X7_check_connectivity_two_clusters :
  ∀ (contains : Z * Z → bool) (f_community s_community : list Z)
    (min_connections : Z),
    (check_connectivity_two_clusters contains f_community s_community
                                     min_connections = true ↔
     Z.max 1 min_connections
     ≤ connections contains f_community s_community) ∧
    check_connectivity_two_clusters contains [] s_community min_connections
    = false ∧
    check_connectivity_two_clusters contains f_community [] min_connections
    = false.
Proof.
  assert (H : ∀ contains f s m,
             check_connectivity_two_clusters contains f s m = true ↔
             Z.max 1 m ≤ connections contains f s).
  { intros contains f s m. unfold check_connectivity_two_clusters.
    rewrite count_rows_spec by lia. simpl.
    case_bool_decide; split; intros; try done; lia. }
  intros contains f s m. split; [apply H|]. split.
  - done.
  - apply not_true_is_false. rewrite H. unfold connections.
    replace (flat_map (λ u, map (pair u) []) f) with (@nil (Z * Z));
      [simpl; lia|].
    induction f as [|u f IH]; [done|]. simpl. exact IH.
Qed.
End stopping_utils.

(** ** Further properties of the clusterer *)

Section clusterer_properties.
Import Py Eff Nx Clustering.

Lemma wfb_wf (G : graph) : wfb G = true → wf G.
Proof.
  unfold wfb. intros [Hnd He]%andb_prop.
  apply bool_decide_eq_true in Hnd. split; [done|].
  intros i j w Hin. rewrite forallb_forall in He.
  apply list_elem_of_In, He in Hin. simpl in Hin.
  apply andb_prop in Hin as [Hi Hj].
  by apply bool_decide_eq_true in Hi, Hj.
Qed.

(** X8: on a graph as networkx holds it (no node twice, edges between its
    nodes) [cluster_connected_components] returns a partition of the
    nodes: classes that are not empty, hold no node twice and together
    hold every node exactly once. Each class is connected by edges of
    weight at least zero, and no edge that is left after the negative and
    NaN edges are removed leads out of a class. *)
Theorem X8_cluster_connected_components (G : graph) :
  wf G →
  Forall (λ c, c ≠ [] ∧ NoDup c ∧ positively_connected G c ∧
               closed (remove_edges_from G (edges_negative_of G)) c)
         (cluster_connected_components G) ∧
  concat (cluster_connected_components G) ≡ₚ nodes G.
Proof.
  intros Hwf.
  destruct (cluster_connected_components_spec G Hwf) as [HF Hperm].
  split; [|done].
  eapply Forall_impl; [exact HF|]. by intros c (? & ? & ? & ?).
Qed.

Lemma X8_cluster_connected_components_witness :
  wf Scenario.S4_graph ∧
  concat (cluster_connected_components Scenario.S4_graph)
  ≡ₚ nodes Scenario.S4_graph.
Proof.
  assert (Hwf : wf Scenario.S4_graph) by (apply wfb_wf; vm_compute; reflexivity).
  split; [exact Hwf|].
  exact (proj2 (X8_cluster_connected_components Scenario.S4_graph Hwf)).
Defined.

Lemma elem_of_concat (x : Z) (ls : list (list Z)) :
  x ∈ concat ls ↔ ∃ l, x ∈ l ∧ l ∈ ls.
Proof.
  induction ls as [|l ls IH]; simpl.
  - split; [by intros ?%elem_of_nil|]. by intros (l & _ & ?%elem_of_nil).
  - rewrite elem_of_app, IH. split.
    + intros [H|(l' & H1 & H2)]; [exists l | exists l']; split; try done;
        [by left | by right].
    + intros (l' & H1 & [->|H2]%elem_of_cons); [by left|].
      right. by exists l'.
Qed.

Lemma split_classes_refine (G' : graph) (clusters : list (list Z)) (c : list Z) :
  wf G' →
  c ∈ split_classes G' clusters → ∃ cluster, cluster ∈ clusters ∧ c ⊆ cluster.
Proof.
  intros Hwf. unfold split_classes.
  intros (cluster & Hc & Hin)%list_elem_of_In%in_flat_map.
  apply list_elem_of_In in Hc, Hin.
  exists cluster. split; [done|].
  apply list_elem_of_fmap in Hin as (c' & -> & Hc').
  destruct (cluster_connected_components_spec (subgraph G' cluster))
    as [_ Hperm]; [by apply wf_subgraph|].
  intros x Hx. apply (proj1 (elem_of_remove_dups _ _)) in Hx.
  assert (Hx' : x ∈ concat (cluster_connected_components (subgraph G' cluster))).
  { apply elem_of_concat. by exists c'. }
  rewrite Hperm in Hx'. simpl in Hx'.
  by apply list_elem_of_filter in Hx' as [? _].
Qed.

(** X9: [split_non_evidence_clusters], given clusters that hold nodes of
    the graph and none of them twice, does not exit: it returns classes
    that are each connected by edges of weight at least zero, that hold
    the same nodes, each once, and each of which lies inside one of the
    given clusters (clusters are split, never merged). *)
Theorem X9_split_non_evidence_clusters (G : graph) (clusters : list (list Z)) :
  wf G → NoDup (concat clusters) → concat clusters ⊆ nodes G →
  ∃ out, split_non_evidence_clusters G clusters = inr out ∧
         Forall (positively_connected G) out ∧
         concat out ≡ₚ concat clusters ∧
         Forall (λ c, ∃ cluster, cluster ∈ clusters ∧ c ⊆ cluster) out.
Proof.
  intros Hwf Hnd Hsub.
  destruct (split_non_evidence_clusters_total G clusters Hwf Hnd Hsub)
    as (out & Hout & Hpos & Hperm).
  exists out. split; [done|]. split; [done|]. split; [done|].
  apply Forall_forall. intros c Hc.
  apply (split_classes_refine (remove_edges_from G (edges_negative_of G))).
  { by apply wf_remove_edges_from. }
  revert Hout. unfold split_non_evidence_clusters.
  repeat case_bool_decide; try done. by intros [= <-].
Qed.

Lemma X9_split_non_evidence_clusters_witness :
  ∃ out, split_non_evidence_clusters Scenario.S3_graph
           [[0; 1; 2; 3]] = inr out ∧
         concat out ≡ₚ concat [[0; 1; 2; 3]].
Proof.
  destruct (X9_split_non_evidence_clusters Scenario.S3_graph [[0; 1; 2; 3]])
    as (out & Hout & _ & Hperm & _).
  - apply wfb_wf. vm_compute. reflexivity.
  - apply (bool_decide_unpack _). vm_compute. exact I.
  - intros x. revert x. apply Forall_forall.
    apply (bool_decide_unpack _). vm_compute. exact I.
  - exists out. by split.
Defined.

(** X10: [split_non_evidence_clusters] exits (SystemExit) whenever a
    cluster names a node that is not in the graph. *)
Theorem X10_split_exits_on_unknown_node (G : graph) (clusters : list (list Z))
    (x : Z) :
  wf G → x ∈ concat clusters → x ∉ nodes G →
  split_non_evidence_clusters G clusters = inl SystemExit.
Proof.
  intros Hwf Hx Hno. unfold split_non_evidence_clusters.
  rewrite bool_decide_eq_true_2; [done|].
  intros Heq.
  assert (Hin : x ∈ (list_to_set (concat clusters) : gset Z)).
  { by apply elem_of_list_to_set. }
  rewrite Heq in Hin. apply elem_of_list_to_set in Hin.
  rewrite split_classes_nodes in Hin by done.
  apply elem_of_concat in Hin as (l & Hxl & Hl).
  apply list_elem_of_fmap in Hl as (cluster & -> & _).
  by apply list_elem_of_filter in Hxl as [_ ?].
Qed.

Lemma X10_split_exits_on_unknown_node_witness :
  split_non_evidence_clusters Scenario.two_nodes [[0; 5]] = inl SystemExit.
Proof.
  apply (X10_split_exits_on_unknown_node Scenario.two_nodes [[0; 5]] 5).
  - apply wfb_wf. vm_compute. reflexivity.
  - apply (bool_decide_unpack _). vm_compute. exact I.
  - apply (bool_decide_unpack _). vm_compute. exact I.
Defined.

Lemma foldM_fails {A B : Type} (f : B → A → res B) (l : list A) (a : A) (b : B) :
  a ∈ l → (∀ b, ∃ e, f b a = inl e) → ∃ e, foldM f b l = inl e.
Proof.
  intros Ha Hf. revert b. induction l as [|a' l IH]; intros b.
  - by apply elem_of_nil in Ha.
  - simpl. apply elem_of_cons in Ha as [<-|Ha].
    + destruct (Hf b) as [e ->]. by exists e.
    + destruct (f b a') as [e|b']; [by exists e|]. simpl. by apply IH.
Qed.

Lemma foldM_exn {A B : Type} (f : B → A → res B) (P : exn → Prop)
    (l : list A) (b : B) (e : exn) :
  (∀ b a e, f b a = inl e → P e) → foldM f b l = inl e → P e.
Proof.
  intros Hf. revert b. induction l as [|a l IH]; intros b; simpl; [done|].
  destruct (f b a) as [e'|b'] eqn:Hfb; simpl.
  - intros [= <-]. by eapply Hf.
  - apply IH.
Qed.

Lemma n2i_unknown (G : graph) (x : Z) : x ∉ nodes G → n2i G x = inl KeyError.
Proof.
  intros Hx. unfold n2i.
  destruct (list_find _ _) as [[i y]|] eqn:Hf; [|done].
  apply list_find_Some in Hf as (Hi & -> & _).
  destruct Hx. by eapply list_elem_of_lookup_2.
Qed.

Lemma n2i_exn (G : graph) (x : Z) (e : exn) : n2i G x = inl e → e = KeyError.
Proof. unfold n2i. destruct (list_find _ _) as [[i y]|]; by intros [= <-]. Qed.

Lemma n2c_of_unknown (G : graph) (classes : list (list Z)) (x : Z) :
  x ∈ concat classes → x ∉ nodes G → n2c_of G classes = inl KeyError.
Proof.
  intros (cluster & Hx & Hc)%elem_of_concat Hno.
  apply list_elem_of_lookup in Hc as [i Hi].
  assert (Hfail : ∃ e, n2c_of G classes = inl e).
  { unfold n2c_of. apply (foldM_fails _ _ (i, cluster)).
    - apply list_elem_of_lookup. exists i.
      by rewrite list_lookup_imap, Hi.
    - intros m. simpl. apply (foldM_fails _ _ x); [done|].
      intros m'. exists KeyError. by rewrite n2i_unknown. }
  destruct Hfail as [e He]. rewrite He. f_equal.
  revert He. unfold n2c_of. apply (foldM_exn _ (λ e, e = KeyError)).
  intros m ic e'. apply (foldM_exn _ (λ e, e = KeyError)).
  intros m' node e''. destruct (n2i G node) as [e3|k] eqn:Hn; [|done].
  simpl. intros [= <-]. by eapply n2i_exn.
Qed.

(** X11: when the initial clustering that is passed names a node that is
    not in the graph, the clusterer raises KeyError before anything else:
    no annealing, no draw, whatever the other arguments. *)
Theorem X11_unknown_initial_node (G : graph) (s : nat)
    (max_attempts max_iters : Z) (initial : list (list Z))
    (split_flag : bool) (x : Z) :
  x ∈ concat initial → x ∉ nodes G →
  cluster_correlation_search G s max_attempts max_iters initial split_flag
  = Raise KeyError.
Proof.
  intros Hx Hno. unfold cluster_correlation_search.
  assert (Hi : initial_classes G initial = initial).
  { destruct initial; [by apply elem_of_nil in Hx | done]. }
  rewrite Hi. unfold prepare.
  by rewrite (n2c_of_unknown G initial x Hx Hno).
Qed.

Lemma X11_unknown_initial_node_witness :
  cluster_correlation_search Scenario.two_nodes 10 200 5000 [[0; 1; 7]] true
  = Raise KeyError.
Proof.
  apply (X11_unknown_initial_node Scenario.two_nodes 10 200 5000
                                  [[0; 1; 7]] true 7).
  - apply (bool_decide_unpack _). vm_compute. exact I.
  - apply (bool_decide_unpack _). vm_compute. exact I.
Defined.
End clusterer_properties.

Section clusterer_total.
Import Py Eff Nx Clustering.

Lemma n2i_known (G : graph) (x : Z) :
  x ∈ nodes G → ∃ i, n2i G x = inr i ∧ nodes G !! i = Some x.
Proof.
  intros Hx. unfold n2i.
  destruct (list_find _ _) as [[i y]|] eqn:Hf.
  - apply list_find_Some in Hf as (Hi & -> & _). by exists i.
  - apply list_find_None in Hf. rewrite Forall_forall in Hf.
    by destruct (Hf x Hx).
Qed.

Lemma n2i_lookup (G : graph) (i : nat) (x : Z) :
  NoDup (nodes G) → nodes G !! i = Some x → n2i G x = inr i.
Proof.
  intros Hnd Hi.
  destruct (n2i_known G x) as (j & Hj & Hl); [by eapply list_elem_of_lookup_2|].
  rewrite Hj. f_equal. by eapply NoDup_lookup.
Qed.

Lemma n2i_bound (G : graph) (x : Z) (i : nat) :
  n2i G x = inr i → (i < length (nodes G))%nat.
Proof.
  unfold n2i. destruct (list_find _ _) as [[j y]|] eqn:Hf; [|done].
  intros [= <-]. apply list_find_Some in Hf as (Hj & _).
  by eapply lookup_lt_Some.
Qed.

Lemma n2c_inner (G : graph) (c : nat) (l : list Z) (m : gmap nat nat) :
  Forall (λ x, x ∈ nodes G) l →
  ∃ m', foldM (λ m node, k ← n2i G node; inr (<[k := c]> m)) m l = inr m' ∧
        ∀ k, is_Some (m' !! k) ↔
             is_Some (m !! k) ∨ ∃ x, x ∈ l ∧ n2i G x = inr k.
Proof.
  intros Hl. revert m. induction Hl as [|x l Hx _ IH]; intros m; simpl.
  - exists m. split; [done|]. intros k. split; [by left|].
    intros [?|(x & Hx & _)]; [done | by apply elem_of_nil in Hx].
  - destruct (n2i_known G x Hx) as (i & Hi & _). rewrite Hi. simpl.
    destruct (IH (<[i := c]> m)) as (m' & -> & Hm'). exists m'.
    split; [done|]. intros k. rewrite Hm'. split.
    + intros [Hk|(y & Hy & Hk)].
      * destruct (decide (i = k)) as [<-|Hne].
        -- right. exists x. split; [by left | done].
        -- rewrite lookup_insert_ne in Hk by done. by left.
      * right. exists y. split; [by right | done].
    + intros [Hk|(y & [->|Hy]%elem_of_cons & Hk)].
      * left. destruct (decide (i = k)) as [<-|Hne].
        -- rewrite lookup_insert_eq. by eexists.
        -- by rewrite lookup_insert_ne.
      * left. rewrite Hi in Hk. injection Hk as <-.
        rewrite lookup_insert_eq. by eexists.
      * right. by exists y.
Qed.

Lemma n2c_outer (G : graph) (ics : list (nat * list Z)) (m : gmap nat nat) :
  Forall (λ ic, Forall (λ x, x ∈ nodes G) ic.2) ics →
  ∃ m', foldM (λ m ic,
                 foldM (λ m node, k ← n2i G node; inr (<[k := ic.1]> m))
                       m ic.2)
              m ics = inr m' ∧
        ∀ k, is_Some (m' !! k) ↔
             is_Some (m !! k) ∨
             ∃ ic x, ic ∈ ics ∧ x ∈ ic.2 ∧ n2i G x = inr k.
Proof.
  intros Hl. revert m. induction Hl as [|ic ics Hic _ IH]; intros m; simpl.
  - exists m. split; [done|]. intros k. split; [by left|].
    intros [?|(ic & x & Hic & _)]; [done | by apply elem_of_nil in Hic].
  - destruct (n2c_inner G ic.1 ic.2 m Hic) as (m1 & -> & Hm1). simpl.
    destruct (IH m1) as (m' & -> & Hm'). exists m'.
    split; [done|]. intros k. rewrite Hm', Hm1. split.
    + intros [[Hk|(x & Hx & Hk)]|(ic' & x & Hic' & Hx & Hk)].
      * by left.
      * right. exists ic, x. split; [by left | done].
      * right. exists ic', x. split; [by right | done].
    + intros [Hk|(ic' & x & [->|Hic']%elem_of_cons & Hx & Hk)].
      * left. by left.
      * left. right. by exists x.
      * right. by exists ic', x.
Qed.

Lemma n2c_of_total (G : graph) (classes : list (list Z)) :
  wf G → concat classes ≡ₚ nodes G →
  ∃ m, n2c_of G classes = inr m ∧
       ∀ k, (k < length (nodes G))%nat → is_Some (m !! k).
Proof.
  intros [Hnd _] Hperm. unfold n2c_of.
  destruct (n2c_outer G (imap (λ i cluster, (i, cluster)) classes) ∅)
    as (m & Hm & Hdom).
  { apply Forall_forall. intros [i cluster] Hin.
    apply list_elem_of_lookup in Hin as [j Hj].
    rewrite list_lookup_imap in Hj.
    destruct (classes !! j) as [cl|] eqn:Hcl; [|done].
    injection Hj as <- <-. simpl.
    apply Forall_forall. intros x Hx. rewrite <- Hperm.
    apply elem_of_concat. exists cl. split; [done|].
    by eapply list_elem_of_lookup_2. }
  exists m. split; [done|]. intros k Hk.
  apply Hdom. right.
  destruct (lookup_lt_is_Some_2 (nodes G) k Hk) as [x Hx].
  assert (Hin : x ∈ concat classes).
  { rewrite Hperm. by eapply list_elem_of_lookup_2. }
  apply elem_of_concat in Hin as (cl & Hxcl & Hcl).
  apply list_elem_of_lookup in Hcl as [j Hj].
  exists (j, cl), x. split; [|split; [done | by apply n2i_lookup]].
  apply list_elem_of_lookup. exists j. by rewrite list_lookup_imap, Hj.
Qed.

Lemma length_omap_all {A B : Type} (f : A → option B) (l : list A) :
  Forall (λ x, is_Some (f x)) l → length (omap f l) = length l.
Proof.
  unfold omap. induction 1 as [|x l [y Hy] _ IH]; simpl; [done|].
  rewrite Hy. simpl. by rewrite IH.
Qed.

Lemma length_init_state_of_all (G : graph) (m : gmap nat nat) :
  (∀ k, (k < length (nodes G))%nat → is_Some (m !! k)) →
  length (init_state_of G m) = length (nodes G).
Proof.
  intros Hm. unfold init_state_of. rewrite length_omap_all.
  - by rewrite length_seq.
  - apply Forall_forall. intros k Hk%elem_of_seq. apply Hm. lia.
Qed.

Lemma mapM_res_total {A B : Type} (f : A → res B) (P : B → Prop) (l : list A) :
  Forall (λ a, ∃ b, f a = inr b ∧ P b) l →
  ∃ bs, mapM_res f l = inr bs ∧ Forall P bs.
Proof.
  induction 1 as [|a l (b & Hb & HP) _ (bs & Hbs & HF)]; simpl.
  - by exists [].
  - rewrite Hb. simpl. rewrite Hbs. simpl. exists (b :: bs).
    split; [done | by constructor].
Qed.

Lemma indexed_edges_total (G : graph) (keep : float → bool) :
  wf G →
  ∃ l, indexed_edges G keep = inr l ∧
       Forall (λ e, (e.1.1 < length (nodes G))%nat ∧
                    (e.1.2 < length (nodes G))%nat) l.
Proof.
  intros [_ He]. unfold indexed_edges.
  destruct (mapM_res_total
    (λ e : Z * Z * float,
       a ← n2i G e.1.1; b ← n2i G e.1.2; inr (a, b, number e.2))
    (λ e : nat * nat * Qc, (e.1.1 < length (nodes G))%nat ∧
                           (e.1.2 < length (nodes G))%nat)
    (filter (λ e, keep e.2 = true) (edges G))) as (l & Hl & HF).
  { apply Forall_forall. intros [[i j] w] [_ Hin]%list_elem_of_filter.
    destruct (He i j w Hin) as [Hi Hj]. simpl.
    destruct (n2i_known G i Hi) as (a & Ha & _).
    destruct (n2i_known G j Hj) as (b & Hb & _).
    rewrite Ha, Hb. simpl. eexists. split; [done|]. simpl.
    split; by eapply n2i_bound. }
  rewrite Hl. simpl. eexists. split; [done|].
  apply Forall_forall. intros e He'.
  apply (proj1 (elem_of_remove_dups _ _)) in He'.
  rewrite Forall_forall in HF. by apply HF.
Qed.

Lemma conflict_fold_total (state : list nat)
    (f : Qc → nat → nat → nat * nat * Qc → Qc)
    (l : list (nat * nat * Qc)) (acc : Qc) :
  Forall (λ e, (e.1.1 < length state)%nat ∧ (e.1.2 < length state)%nat) l →
  ∃ r, foldM (λ acc e,
                si ← getitem state e.1.1; sj ← getitem state e.1.2;
                inr (f acc si sj e))
             acc l = inr r.
Proof.
  intros Hl. revert acc. induction Hl as [|e l [H1 H2] _ IH]; intros acc; simpl.
  - by exists acc.
  - destruct (lookup_lt_is_Some_2 state _ H1) as [a Ha].
    destruct (lookup_lt_is_Some_2 state _ H2) as [b Hb].
    apply getitem_inr in Ha, Hb. rewrite Ha. simpl. rewrite Hb. simpl.
    apply IH.
Qed.

Lemma conflict_loss_total (pos neg : list (nat * nat * Qc)) (state : list nat) :
  Forall (λ e, (e.1.1 < length state)%nat ∧ (e.1.2 < length state)%nat) pos →
  Forall (λ e, (e.1.1 < length state)%nat ∧ (e.1.2 < length state)%nat) neg →
  ∃ q, conflict_loss pos neg state = inr q.
Proof.
  intros Hp Hn. unfold conflict_loss.
  destruct (conflict_fold_total state
    (λ acc si sj e, if bool_decide (si ≠ sj) then (acc + e.2)%Qc else acc)
    pos 0%Qc Hp) as [lp ->].
  destruct (conflict_fold_total state
    (λ acc si sj e, if bool_decide (si = sj) then (acc + Qcabs e.2)%Qc else acc)
    neg 0%Qc Hn) as [ln ->].
  simpl. by eexists.
Qed.

(** On classes that hold every node of the graph once, nothing that is
    computed before the search raises. *)
Lemma prepare_total (G : graph) (classes : list (list Z)) :
  wf G → concat classes ≡ₚ nodes G →
  ∃ p, prepare G classes = inr p ∧
       length (p_init_state p) = length (nodes G).
Proof.
  intros Hwf Hperm. unfold prepare.
  destruct (n2c_of_total G classes Hwf Hperm) as (m & -> & Hm). simpl.
  destruct (indexed_edges_total G ge_zero Hwf) as (pos & -> & Hpos). simpl.
  destruct (indexed_edges_total G lt_zero Hwf) as (neg & -> & Hneg). simpl.
  pose proof (length_init_state_of_all G m Hm) as Hlen.
  destruct (conflict_loss_total pos neg (init_state_of G m)) as [q ->].
  { by rewrite Hlen. }
  { by rewrite Hlen. }
  simpl. by eexists.
Qed.

Lemma search_states_full (G : graph) (classes : list (list Z))
    (init_state : list nat) (max_attempts max_iters : Z) (ns : list nat)
    (l2s : l2s_table) :
  l2s ≠ [] →
  Forall (λ e, length e.2.1 = length (nodes G)) l2s →
  every_run (search G classes init_state max_attempts max_iters ns l2s)
    (λ o, ∃ l2s', o = Returned l2s' ∧ l2s' ≠ [] ∧
                  Forall (λ e, length e.2.1 = length (nodes G)) l2s').
Proof.
  revert l2s. induction ns as [|n ns IH]; intros l2s Hne HF; simpl.
  - by exists l2s.
  - intros st1 fit1 Hlen1 _ st2 fit2 Hlen2 _. apply IH.
    + by destruct l2s.
    + rewrite !Forall_app. split; [split; [done|]|]; by repeat constructor.
Qed.

(** X12: on a graph as networkx holds it, started from the connected
    components (no initial clustering) or from an initial clustering that
    holds every node of the graph once, every run of the clusterer
    returns, whatever the annealer answers and whichever of the best
    states is drawn, with or without the split: nothing raises, and the
    clusters returned hold every node of the graph exactly once and come
    in the order of decreasing size. *)
Theorem X12_clusterer_returns_a_partition (G : graph) (s : nat)
    (max_attempts max_iters : Z) (initial : list (list Z))
    (split_flag : bool) :
  wf G → initial = [] ∨ concat initial ≡ₚ nodes G →
  every_run
    (cluster_correlation_search G s max_attempts max_iters initial split_flag)
    (λ o, ∃ classes, o = Returned classes ∧
                     concat classes ≡ₚ nodes G ∧
                     StronglySorted (λ a b, (length b ≤ length a)%nat) classes).
Proof.
  intros Hwf Hinit.
  assert (Hclasses : concat (initial_classes G initial) ≡ₚ nodes G).
  { destruct Hinit as [->|Hperm].
    - apply (cluster_connected_components_spec G Hwf).
    - destruct initial; [|done].
      apply (cluster_connected_components_spec G Hwf). }
  destruct (prepare_total G _ Hwf Hclasses) as (p & Hp & Hlen).
  unfold cluster_correlation_search. rewrite Hp. simpl.
  destruct (Qeq_bool (p_loss_init p) 0).
  { simpl. eexists. split; [done|]. split.
    - unfold sort_by_size. by rewrite sort_by_perm.
    - apply sort_by_size_sorted. }
  apply every_run_bind.
  eapply every_run_mono; [|apply search_states_full].
  - intros o (l2s & -> & Hne & HF).
    apply every_run_bind. apply every_run_random_choice.
    { by apply entries_of_min_key. }
    intros best (e & He & <-)%entries_of_elem_of.
    rewrite Forall_forall in HF. specialize (HF e He).
    destruct (classes_of_state_spec G e.2.1 Hwf) as (cs & Hcs & Hperm);
      [lia|].
    rewrite HF, firstn_all in Hperm.
    rewrite Hcs. simpl.
    destruct split_flag; simpl.
    + destruct (split_non_evidence_clusters_total G cs Hwf)
        as (out & -> & _ & Hperm').
      { rewrite Hperm. by destruct Hwf. }
      { by rewrite Hperm. }
      simpl. eexists. split; [done|]. split.
      * unfold sort_by_size. by rewrite sort_by_perm, Hperm'.
      * apply sort_by_size_sorted.
    + eexists. split; [done|]. split.
      * unfold sort_by_size. by rewrite sort_by_perm.
      * apply sort_by_size_sorted.
  - done.
  - by repeat constructor.
Qed.

Lemma X12_clusterer_returns_a_partition_witness :
  wf Scenario.S4_graph ∧
  every_run
    (cluster_correlation_search Scenario.S4_graph 10 200 5000 [] true)
    (λ o, ∃ classes, o = Returned classes ∧
                     concat classes ≡ₚ nodes Scenario.S4_graph ∧
                     StronglySorted (λ a b, (length b ≤ length a)%nat) classes).
Proof.
  assert (Hwf : wf Scenario.S4_graph) by (apply wfb_wf; vm_compute; reflexivity).
  split; [exact Hwf|].
  apply (X12_clusterer_returns_a_partition Scenario.S4_graph 10 200 5000 []
                                           true Hwf).
  by left.
Defined.
End clusterer_total.

(** ** Guards that cannot pass *)

Section guards.
Import Py Eff Params.

(** X13: [correlation_clustering] raises AssertionError for every graph
    and every parameter dictionary: after asserting that [s] is an int it
    asserts that the same [s] is a str. The clusterer is never called. *)
Theorem X13_correlation_clustering_never_clusters :
  ∀ (graph nx_graph : Type) (get_nx_graph_copy : graph → value → nx_graph)
    (clusterer : nx_graph → value → value → value → prog (list (list Z)))
    (simulationGraph : graph) (p : params),
    ClusteringStrategy.correlation_clustering get_nx_graph_copy clusterer
                                              simulationGraph p
    = Raise AssertionError.
Proof.
  intros graph nx_graph copy clusterer g p.
  unfold ClusteringStrategy.correlation_clustering.
  destruct (bool_decide_reflect (type_of (get p "s" (VInt 10)) = TInt))
    as [Hs|]; simpl; [|done].
  rewrite (bool_decide_eq_false_2 (type_of (get p "s" (VInt 10)) = TStr))
    by congruence.
  reflexivity.
Qed.

(** X14: [edges_added] compares [number_edges] with the number of
    [add_edge] calls made so far, MISSING judgements and repeated pairs
    included; it raises AssertionError when [number_edges] is absent or is
    not an int (a float or a bool is refused). *)
Theorem X14_edges_added :
  ∀ (N : nat) (js : list (Z * Z * float)) (p : params),
    StoppingCriterion.edges_added
      (AnnotatedGraph.add_edges (AnnotatedGraph.init N) js) p
    = match p !! "number_edges" with
      | Some (VInt n) => inr (bool_decide (n ≤ Z.of_nat (length js)))
      | _ => inl AssertionError
      end.
Proof.
  intros N js p. unfold StoppingCriterion.edges_added, get.
  unfold AnnotatedGraph.get_num_added_edges.
  rewrite judgements_add_edges. simpl.
  destruct (p !! "number_edges") as [[]|]; done.
Qed.

(** X15: [bootstraping] never returns. When its six guards pass, [rounds]
    is an int and the loop [for _ in rounds] raises TypeError before the
    first round; when one of them fails it raises AssertionError. *)
Theorem X15_bootstraping_never_returns :
  ∀ (graph : Type)
    (round_statistic : graph → value → value → params → prog Qc)
    (percentile : list Qc → Qc → Qc) (g : graph) (p : params),
    StoppingCriterion.bootstraping round_statistic percentile g p
    = if bool_decide (type_of (get p "rounds" VNone) = TInt)
         && bool_decide (type_of (get p "sample_size" VNone) = TInt)
         && bool_decide (type_of (get p "alpha" VNone) = TFloat)
         && match get p "bound" VNone with
            | VTuple l => bool_decide (length l = 2%nat)
            | _ => false
            end
         && callable (get p "stat_func" VNone)
         && bool_decide (type_of (get p "stat_params" VNone) = TDict)
      then Raise TypeError
      else Raise AssertionError.
Proof.
  intros graph rs pc g p. unfold StoppingCriterion.bootstraping.
  destruct (bool_decide_reflect (type_of (get p "rounds" VNone) = TInt))
    as [H1|]; simpl; [|done].
  destruct (bool_decide (type_of (get p "sample_size" VNone) = TInt));
    simpl; [|done].
  destruct (bool_decide (type_of (get p "alpha" VNone) = TFloat));
    simpl; [|done].
  destruct (match get p "bound" VNone with
            | VTuple l => bool_decide (length l = 2%nat)
            | _ => false
            end); simpl; [|done].
  destruct (callable (get p "stat_func" VNone)); simpl; [|done].
  destruct (bool_decide (type_of (get p "stat_params" VNone) = TDict));
    simpl; [|done].
  by destruct (get p "rounds" VNone).
Qed.

(** X16: [cluster_size_change_conv], [_rand_index_conv] and [_jsd_conv]
    raise AssertionError on every call and leave the history they keep
    between calls as it was: after asserting that [threshold] is a float
    each asserts that the same [threshold] is a str. None of them can
    report convergence. *)
Theorem X16_convergence_criteria_never_pass :
  ∀ (graph : Type) (get_number_communities : graph → Z)
    (get_community_sizes labels : graph → list Z)
    (mse_mean rmse_mean : list Qc → Qc)
    (adjusted_rand_score jensenshannon : list Z → list Z → Qc)
    (g : graph) (p : params),
    (∀ _num_clusters,
        AdvStoppingCriterion.cluster_size_change_conv
          get_number_communities mse_mean rmse_mean _num_clusters g p
        = (_num_clusters, inl AssertionError)) ∧
    (∀ state,
        AdvStoppingCriterion._rand_index_conv
          labels mse_mean rmse_mean adjusted_rand_score state g p
        = (state, inl AssertionError)) ∧
    (∀ state,
        AdvStoppingCriterion._jsd_conv
          get_community_sizes mse_mean rmse_mean jensenshannon state g p
        = (state, inl AssertionError)).
Proof.
  intros graph gnc gcs labels mse rmse ars js g p.
  assert (Hg : AdvStoppingCriterion.guards p = inl AssertionError).
  { unfold AdvStoppingCriterion.guards.
    destruct (bool_decide (type_of (get p "timesteps" (VInt 5)) = TInt));
      simpl; [|done].
    destruct (bool_decide_reflect
                (type_of (get p "threshold" (VFloat (Q2Qc (1 # 10)))) = TFloat))
      as [Ht|]; simpl; [|done].
    rewrite (bool_decide_eq_false_2
               (type_of (get p "threshold" (VFloat (Q2Qc (1 # 10)))) = TStr))
      by congruence.
    reflexivity. }
  unfold AdvStoppingCriterion.cluster_size_change_conv,
    AdvStoppingCriterion._rand_index_conv, AdvStoppingCriterion._jsd_conv.
  rewrite Hg. done.
Qed.
End guards.

(** ** The simulation loop *)

Section simulation_loop.
Import Py Eff Params Simulation.
Context {true_graph world : Type}.
Context (call_sampling :
           string → true_graph → params → world
           → prog (list (Z * Z * float) * world)).
Context (call_clustering :
           string → AnnotatedGraph.t → params → world
           → prog (list (Z * list Z) * world)).
Context (call_stopping :
           string → AnnotatedGraph.t → params → world → prog (bool * world)).

Lemma every_run_call {A : Type} (f : value) (k : string → prog A)
    (Q : outcome A → Prop) :
  Q (Raised TypeError) → (∀ name, every_run (k name) Q) →
  every_run (call f k) Q.
Proof. intros HT Hk. destruct f; simpl; auto. Qed.

End simulation_loop.

Section simulation_properties.
Import Py Eff Params Simulation.
Context {true_graph world : Type}.
Context (call_sampling :
           string → true_graph → params → world
           → prog (list (Z * Z * float) * world)).
Context (call_clustering :
           string → AnnotatedGraph.t → params → world
           → prog (list (Z * list Z) * world)).
Context (call_stopping :
           string → AnnotatedGraph.t → params → world → prog (bool * world)).

Lemma range_nonpositive (max_iter : Z) : max_iter ≤ 0 → range max_iter = [].
Proof. intros H. unfold range. by replace (Z.to_nat max_iter) with 0%nat by lia. Qed.

(** X17: when the guards pass and [max_iter] is zero or negative, the
    loop body never runs, [_] is never bound, and [simulation] raises
    UnboundLocalError at its [return] without having called a strategy. *)
Theorem X17_simulation_without_rounds (trueGraph : true_graph)
    (simulationGraph : AnnotatedGraph.t) (max_iter : Z) (kwargs : params)
    (w : world) :
  (∃ g, guard_phase kwargs = inr g) → max_iter ≤ 0 →
  simulation call_sampling call_clustering call_stopping
             trueGraph simulationGraph max_iter kwargs w
  = Raise UnboundLocalError.
Proof.
  intros [[[[[ss sp] cl] sc] stp] Hg] Hmax. unfold simulation.
  rewrite Hg, (range_nonpositive max_iter Hmax). reflexivity.
Qed.

(** The loop: [calls] counts the calls of the sampling strategy. *)
Lemma rounds_calls (calls : world → nat)
    (tG : true_graph) (ss sp : value) (cl : option (value * value))
    (sc stp : value) :
  (∀ f p w, every_run (call_sampling f tG p w)
      (λ o, match o with
            | Returned (_, w') => calls w' = S (calls w)
            | Raised _ => True
            end)) →
  (∀ f g p w, every_run (call_clustering f g p w)
      (λ o, match o with
            | Returned (_, w') => calls w' = calls w
            | Raised _ => True
            end)) →
  (∀ f g p w, every_run (call_stopping f g p w)
      (λ o, match o with
            | Returned (_, w') => calls w' = calls w
            | Raised _ => True
            end)) →
  ∀ (n k : nat) (last : option Z) g w,
    every_run (rounds call_sampling call_clustering call_stopping
                      tG ss sp cl sc stp (map Z.of_nat (seq k n)) last g w)
      (λ o, match o with
            | Returned (_, w', last') =>
              (n = 0%nat ∧ last' = last ∧ calls w' = calls w) ∨
              (∃ j : nat, last' = Some (Z.of_nat j) ∧
                          (k ≤ j < k + n)%nat ∧
                          calls w' = (calls w + (j - k) + 1)%nat)
            | Raised _ => True
            end).
Proof.
  intros Hs Hc Hst n.
  induction n as [|n IH]; intros k last g w; simpl; [by left|].
  apply every_run_bind. apply every_run_call; [done|]. intros f.
  eapply every_run_mono; [|apply Hs]. intros [[es w1]|e] H1; [|done].
  apply every_run_bind.
  assert (Hcl : every_run
    match cl with
    | Some (clustering_strategy, clustering_params) =>
      '(clusters, w) ←
        call clustering_strategy
             (λ f, call_clustering f (AnnotatedGraph.add_edges g es)
                                   (as_params clustering_params) w1);
      match AnnotatedGraph.update_community_nodes_membership
              (AnnotatedGraph.add_edges g es) clusters with
      | Some g => Ret (g, w)
      | None => Raise IndexError
      end
    | None => Ret (AnnotatedGraph.add_edges g es, w1)
    end
    (λ o, match o with
          | Returned (_, w2) => calls w2 = calls w1
          | Raised _ => True
          end)).
  { destruct cl as [[cs cp]|]; [|done].
    apply every_run_bind. apply every_run_call; [done|]. intros f'.
    eapply every_run_mono; [|apply Hc]. intros [[cs' w2]|e] H2; [|done].
    by destruct (AnnotatedGraph.update_community_nodes_membership _ _). }
  eapply every_run_mono; [|exact Hcl]. intros [[g2 w2]|e] H2; [|done].
  apply every_run_bind. apply every_run_call; [done|]. intros f''.
  eapply every_run_mono; [|apply Hst]. intros [[stop w3]|e] H3; [|done].
  destruct stop; simpl.
  - right. exists k. split; [done|]. split; [lia|]. lia.
  - eapply every_run_mono; [|apply IH].
    intros [[[g4 w4] last4]|e]; [|done].
    intros [(-> & -> & H4)|(j & -> & Hj & H4)]; right.
    + exists k. split; [done|]. split; [lia|]. lia.
    + exists j. split; [done|]. split; [lia|]. lia.
Qed.

(** X18: let the sampling strategy be called with a counter of its calls
    that the other strategies leave alone. Whenever [simulation] returns,
    it has called the sampling strategy at least once and at most
    [max_iter] times, and its third result is True exactly when it has
    called it [max_iter] times: also when the stopping criterion was met
    in that last round. *)
Theorem X18_simulation_reports_last_round (calls : world → nat)
    (trueGraph : true_graph) (simulationGraph : AnnotatedGraph.t)
    (max_iter : Z) (kwargs : params) (w : world) :
  (∀ f p w, every_run (call_sampling f trueGraph p w)
      (λ o, match o with
            | Returned (_, w') => calls w' = S (calls w)
            | Raised _ => True
            end)) →
  (∀ f g p w, every_run (call_clustering f g p w)
      (λ o, match o with
            | Returned (_, w') => calls w' = calls w
            | Raised _ => True
            end)) →
  (∀ f g p w, every_run (call_stopping f g p w)
      (λ o, match o with
            | Returned (_, w') => calls w' = calls w
            | Raised _ => True
            end)) →
  every_run (simulation call_sampling call_clustering call_stopping
                        trueGraph simulationGraph max_iter kwargs w)
    (λ o, match o with
          | Returned (tG, _, flag, w') =>
            tG = trueGraph ∧
            (calls w < calls w')%nat ∧
            Z.of_nat (calls w' - calls w) ≤ max_iter ∧
            flag = bool_decide (max_iter ≤ Z.of_nat (calls w' - calls w))
          | Raised _ => True
          end).
Proof.
  intros Hs Hc Hst. unfold simulation.
  destruct (guard_phase kwargs) as [e|[[[[ss sp] cl] sc] stp]]; [done|].
  simpl. apply every_run_bind.
  eapply every_run_mono;
    [|apply (rounds_calls calls trueGraph ss sp cl sc stp Hs Hc Hst
                          (Z.to_nat max_iter) 0%nat None simulationGraph w)].
  intros [[[g' w'] last']|e]; [|done].
  intros [(_ & -> & _)|(j & -> & Hj & Hw)]; simpl; [done|].
  split; [done|]. split; [lia|]. split; [lia|].
  apply bool_decide_ext. lia.
Qed.

End simulation_properties.

Section simulation_witnesses.
Import Py Eff Params Simulation.

Lemma X17_simulation_without_rounds_witness :
  simulation (true_graph := unit) (world := unit)
             (λ _ _ _ _, Raise TypeError) (λ _ _ _ _, Raise TypeError)
             (λ _ _ _ _, Raise TypeError)
             () (AnnotatedGraph.init 3) 0
             (list_to_map [("sampling_strategy", VFunction "random_sampling");
                           ("sampling_params", VDict []);
                           ("stopping_criterion", VFunction "edges_added");
                           ("stopping_params", VDict [])])
             ()
  = Raise UnboundLocalError.
Proof.
  apply X17_simulation_without_rounds.
  - eexists. vm_compute. reflexivity.
  - lia.
Defined.

Lemma X18_simulation_reports_last_round_witness :
  every_run
    (simulation (true_graph := unit) (world := nat)
                (λ _ _ _ w, Ret ([], S w)) (λ _ _ _ w, Ret ([], w))
                (λ _ _ _ w, Ret (true, w))
                () (AnnotatedGraph.init 3) 1
                (list_to_map [("sampling_strategy", VFunction "random_sampling");
                              ("sampling_params", VDict []);
                              ("stopping_criterion", VFunction "edges_added");
                              ("stopping_params", VDict [])])
                0%nat)
    (λ o, match o with
          | Returned (tG, _, flag, w') =>
            tG = () ∧
            (0 < w')%nat ∧
            Z.of_nat (w' - 0) ≤ 1 ∧
            flag = bool_decide (1 ≤ Z.of_nat (w' - 0))
          | Raised _ => True
          end).
Proof.
  apply (X18_simulation_reports_last_round
           (λ _ _ _ w, Ret ([], S w)) (λ _ _ _ w, Ret ([], w))
           (λ _ _ _ w, Ret (true, w)) (λ w : nat, w)).
  - intros f p w. reflexivity.
  - intros f g p w. reflexivity.
  - intros f g p w. reflexivity.
Defined.
End simulation_witnesses.

(** ** Sampling *)

Section sampling.
Import Py Eff Params Sampling.
Context {graph weight : Type}.
Context (nodes : graph → list Z) (get_edge : graph → Z → Z → weight).

Lemma random_sample_2_spec (l : list Z) :
  every_run (random_sample_2 l)
    (λ o, match o with
          | Returned (x, y) => x ∈ l ∧ y ∈ l ∧ (NoDup l → x ≠ y)
          | Raised e => e = ValueError ∧ (length l < 2)%nat
          end).
Proof.
  unfold random_sample_2.
  destruct (bool_decide_reflect (length l < 2)%nat) as [Hl|Hl]; simpl; [done|].
  intros i Hi j Hj.
  destruct (lookup_lt_is_Some_2 l i Hi) as [x Hx]. rewrite Hx.
  assert (Hdel : (j < length (delete i l))%nat).
  { rewrite length_delete by (by eexists). lia. }
  destruct (lookup_lt_is_Some_2 _ j Hdel) as [y Hy]. rewrite Hy. simpl.
  assert (Hy' : ∃ j', j' ≠ i ∧ l !! j' = Some y).
  { destruct (decide (j < i)%nat) as [Hlt|Hge].
    - exists j. split; [lia|]. by rewrite <- (list_lookup_delete_lt l i j).
    - exists (S j). split; [lia|].
      rewrite <- (list_lookup_delete_ge l i j) by lia. done. }
  destruct Hy' as (j' & Hne & Hj').
  split; [by eapply list_elem_of_lookup_2|].
  split; [by eapply list_elem_of_lookup_2|].
  intros Hnd ->. apply Hne. by eapply NoDup_lookup.
Qed.

Lemma sorted2_cases (x y u v : Z) :
  sorted2 x y = (u, v) → x ≠ y → u < v ∧ (u = x ∧ v = y ∨ u = y ∧ v = x).
Proof.
  unfold sorted2. destruct (Z.ltb_spec y x); intros [= <- <-] Hne; lia.
Qed.

Lemma sample_pairs_spec (G : graph) (n : nat) (acc : list (Z * Z * weight)) :
  NoDup (nodes G) →
  let ok := λ e : Z * Z * weight,
    e.1.1 < e.1.2 ∧ e.1.1 ∈ nodes G ∧ e.1.2 ∈ nodes G ∧
    e.2 = get_edge G e.1.1 e.1.2 in
  Forall ok acc →
  every_run (sample_pairs nodes get_edge G n acc)
    (λ o, match o with
          | Returned es => length es = (length acc + n)%nat ∧ Forall ok es
          | Raised e =>
            e = ValueError ∧ (length (nodes G) < 2)%nat ∧ (0 < n)%nat
          end).
Proof.
  intros Hnd ok. revert acc. induction n as [|n IH]; intros acc Hacc; simpl.
  - split; [lia | done].
  - apply every_run_bind.
    eapply every_run_mono; [|apply random_sample_2_spec].
    intros [[x y]|e]; [|intros [? ?]; split; [done|split; [done|lia]]].
    intros (Hx & Hy & Hxy). simpl.
    destruct (sorted2 x y) as [u v] eqn:Huv.
    apply sorted2_cases in Huv as [Hlt Hc]; [|by apply Hxy].
    eapply every_run_mono; [|apply IH].
    + intros [es|e]; [|intros (? & ? & ?); split; [done|split; [done|lia]]].
      rewrite length_app. simpl.
      intros [Hlen HF]. split; [lia | done].
    + apply Forall_app. split; [done|]. constructor; [|done].
      unfold ok. simpl. destruct Hc as [[-> ->]|[-> ->]]; done.
Qed.

(** X20: [random_sampling] with an int [sample_size] on a graph with at
    least two nodes returns exactly [sample_size] edges (none when it is
    negative), each (u, v, get_edge(u, v)) with u < v two different nodes
    of the graph: it never samples a node against itself. On a graph with
    fewer than two nodes it raises ValueError as soon as one edge is
    asked for. Without an int [sample_size] it raises AssertionError. *)
Theorem X20_random_sampling :
  ∀ (G : graph) (p : params),
    ((∀ n, p !! "sample_size" ≠ Some (VInt n)) →
     random_sampling nodes get_edge G p = Raise AssertionError) ∧
    (∀ n, p !! "sample_size" = Some (VInt n) → NoDup (nodes G) →
          every_run (random_sampling nodes get_edge G p)
            (λ o, match o with
                  | Returned es =>
                    length es = Z.to_nat n ∧
                    Forall (λ e, e.1.1 < e.1.2 ∧ e.1.1 ∈ nodes G ∧
                                 e.1.2 ∈ nodes G ∧
                                 e.2 = get_edge G e.1.1 e.1.2) es
                  | Raised e =>
                    e = ValueError ∧ (length (nodes G) < 2)%nat ∧ 0 < n
                  end)).
Proof.
  intros G p. split.
  - intros Hn. unfold random_sampling, get.
    destruct (p !! "sample_size") as [[| | n | | | | |]|]; try done.
    by destruct (Hn n).
  - intros n Hn Hnd. unfold random_sampling, get. rewrite Hn. simpl.
    eapply every_run_mono; [|apply sample_pairs_spec; [done | constructor]].
    intros [es|e]; [done|]. intros (-> & Hl & Hpos).
    split; [done|]. split; [done | lia].
Qed.
End sampling.

Section dwug_phases.
Import Py Eff Params Sampling.
Context {graph weight : Type}.
Context (get_edge : graph → Z → Z → weight).

Lemma exit_test (max_edges : Qc) (n : nat) :
  Qcleb max_edges (Q2Qc (inject_Z (Z.of_nat n))) = true ↔
  (turns max_edges ≤ n)%nat.
Proof.
  unfold Qcleb, turns. rewrite Qle_bool_iff. simpl.
  rewrite Qred_correct. split.
  - intros H. apply Qceiling_resp_le in H. rewrite Qceiling_Z in H. lia.
  - intros H. eapply Qle_trans; [apply Qle_ceiling|].
    rewrite <- Zle_Qle. lia.
Qed.

Lemma chain_from_app (start : Z) (es : list (Z * Z * weight))
    (e : Z * Z * weight) :
  chain_from start es → e.1.1 = foldl (λ _ e', e'.1.2) start es →
  chain_from start (es ++ [e]).
Proof.
  revert start. induction es as [|e' es IH]; intros start; simpl.
  - by intros _ ->.
  - intros [-> Hc] He. split; [done|]. by apply IH.
Qed.

Lemma foldl_end_app (start : Z) (es : list (Z * Z * weight))
    (e : Z * Z * weight) :
  foldl (λ _ e', e'.1.2) start (es ++ [e]) = e.1.2.
Proof. by rewrite foldl_app. Qed.

Lemma walk_spec (sG : graph) (nodes_ : list Z) (max_edges : Qc) (start : Z) :
  (∃ a b, a ∈ nodes_ ∧ b ∈ nodes_ ∧ a ≠ b) →
  let ok := λ e : Z * Z * weight,
    e.1.1 ≠ e.1.2 ∧ e.1.1 ∈ nodes_ ∧ e.1.2 ∈ nodes_ ∧
    e.2 = get_edge sG e.1.1 e.1.2 in
  ∀ (fuel : nat) (last_node : Z) (acc : list (Z * Z * weight)),
    (turns max_edges ≤ length acc + fuel)%nat →
    last_node ∈ nodes_ → Forall ok acc → chain_from start acc →
    last_node = foldl (λ _ e', e'.1.2) start acc →
    every_run (walk get_edge sG nodes_ max_edges fuel last_node acc)
      (λ o, ∃ es, o = Returned es ∧
                  length es = (length acc `max` turns max_edges)%nat ∧
                  Forall ok es ∧ chain_from start es).
Proof.
  intros (a & b & Ha & Hb & Hab) ok fuel.
  induction fuel as [|fuel IH]; intros last_node acc Hfuel Hlast Hok Hch Hend.
  - simpl. rewrite (proj2 (exit_test max_edges (length acc))) by lia.
    simpl. exists acc. split; [done|]. split; [lia | done].
  - simpl.
    destruct (Qcleb max_edges _) eqn:Hexit.
    + apply exit_test in Hexit. simpl.
      exists acc. split; [done|]. split; [lia | done].
    + assert (Hlt : (length acc < turns max_edges)%nat).
      { destruct (decide (turns max_edges ≤ length acc)%nat) as [Hle|]; [|lia].
        apply exit_test in Hle. congruence. }
      apply every_run_bind. apply every_run_random_choice.
      { destruct (decide (a = last_node)) as [->|Hne].
        - intros Hnil.
          assert (Hin : b ∈ filter (λ n, n ≠ last_node) nodes_).
          { apply list_elem_of_filter. split; [congruence | done]. }
          rewrite Hnil in Hin. by apply elem_of_nil in Hin.
        - intros Hnil.
          assert (Hin : a ∈ filter (λ n, n ≠ last_node) nodes_).
          { by apply list_elem_of_filter. }
          rewrite Hnil in Hin. by apply elem_of_nil in Hin. }
      intros next [Hne Hnext]%list_elem_of_filter.
      eapply every_run_mono; [|apply IH].
      * intros o (es & -> & Hlen & HF & Hc). exists es.
        split; [done|]. rewrite length_app in Hlen. simpl in Hlen.
        split; [lia | done].
      * rewrite length_app. simpl. lia.
      * done.
      * apply Forall_app. split; [done|]. constructor; [|done].
        unfold ok. simpl. done.
      * apply chain_from_app; [done|]. simpl. done.
      * by rewrite foldl_end_app.
Qed.

(** X21: on nodes of which at least two differ, every run of
    [_exploration_phase] returns exactly [max_edges] edges, rounded up
    (none when [max_edges] is not positive), however many different
    pairs the nodes allow: the walk may take a pair again. The edges form
    a walk that starts at one of the nodes, each edge starting where the
    one before ended and joining two different nodes of the list, with
    the weight [get_edge] gives. On no node or one node it returns the
    empty list without drawing. *)
Theorem X21_exploration_phase :
  ∀ (sG : graph) (nodes_ : list Z) (max_edges : Qc),
    ((length nodes_ ≤ 1)%nat →
     _exploration_phase get_edge sG nodes_ max_edges = Ret []) ∧
    ((∃ a b, a ∈ nodes_ ∧ b ∈ nodes_ ∧ a ≠ b) →
     every_run (_exploration_phase get_edge sG nodes_ max_edges)
       (λ o, ∃ es start,
           o = Returned es ∧
           length es = Z.to_nat (Qceiling max_edges) ∧
           start ∈ nodes_ ∧ chain_from start es ∧
           Forall (λ e, e.1.1 ≠ e.1.2 ∧ e.1.1 ∈ nodes_ ∧ e.1.2 ∈ nodes_ ∧
                        e.2 = get_edge sG e.1.1 e.1.2) es)).
Proof.
  intros sG nodes_ max_edges. split.
  - intros Hlen. unfold _exploration_phase.
    destruct nodes_ as [|a [|b l]]; simpl in *; try done. lia.
  - intros Hab. unfold _exploration_phase.
    destruct Hab as (a & b & Ha & Hb & Hab').
    destruct nodes_ as [|x [|y l]].
    { by apply elem_of_nil in Ha. }
    { apply list_elem_of_singleton in Ha, Hb. congruence. }
    simpl bool_decide. simpl orb. cbv iota.
    apply every_run_bind. apply every_run_random_choice; [done|].
    intros start Hstart.
    eapply every_run_mono;
      [|apply (walk_spec sG (x :: y :: l) max_edges start)].
    + intros o (es & -> & Hlen & HF & Hc). exists es, start.
      split; [done|]. split; [by rewrite Hlen | done].
    + by exists a, b.
    + simpl. lia.
    + done.
    + constructor.
    + done.
    + done.
Qed.

Lemma connect_spec (sG : graph) (g : AnnotatedGraph.t) (node : Z)
    (mcs : list (list Z)) (acc : list (Z * Z * weight))
    (pairs : list (Z * list Z)) :
  Forall (λ c, c ≠ []) mcs →
  let ok := λ (e : Z * Z * weight) (nc : Z * list Z),
    e.1.1 = nc.1 ∧ e.1.2 ∈ nc.2 ∧ e.2 = get_edge sG e.1.1 e.1.2 in
  Forall2 ok acc pairs →
  every_run (connect get_edge sG g node mcs acc)
    (λ o, ∃ es, o = Returned es ∧
                Forall2 ok es
                  (pairs ++ map (pair node)
                     (filter (λ c, _check_node_cluster_con g node c = false)
                             mcs))).
Proof.
  intros Hne ok. revert acc pairs.
  induction Hne as [|c mcs Hc _ IH]; intros acc pairs Hacc.
  - simpl. exists acc. split; [done|]. by rewrite app_nil_r.
  - rewrite filter_cons. cbn [connect].
    destruct (_check_node_cluster_con g node c) eqn:Hcon; cbn [negb].
    + rewrite decide_False by done. by apply IH.
    + rewrite decide_True by done. cbn [map].
      apply every_run_bind. apply every_run_random_choice; [done|].
      intros connection Hin.
      eapply every_run_mono;
        [|apply (IH _ (pairs ++ [(node, c)]))].
      * intros o (es & -> & HF). exists es. split; [done|].
        by rewrite <- app_assoc in HF.
      * apply Forall2_app; [done|]. by repeat constructor.
Qed.

Lemma connect_all_spec (sG : graph) (g : AnnotatedGraph.t) (nodes_ : list Z)
    (mcs : list (list Z)) (acc : list (Z * Z * weight))
    (pairs : list (Z * list Z)) :
  Forall (λ c, c ≠ []) mcs →
  let ok := λ (e : Z * Z * weight) (nc : Z * list Z),
    e.1.1 = nc.1 ∧ e.1.2 ∈ nc.2 ∧ e.2 = get_edge sG e.1.1 e.1.2 in
  Forall2 ok acc pairs →
  every_run (connect_all get_edge sG g nodes_ mcs acc)
    (λ o, ∃ es, o = Returned es ∧
                Forall2 ok es (pairs ++ unconnected g nodes_ mcs)).
Proof.
  intros Hne ok. revert acc pairs.
  induction nodes_ as [|node rest IH]; intros acc pairs Hacc; simpl.
  - exists acc. split; [done|]. by rewrite app_nil_r.
  - apply every_run_bind.
    eapply every_run_mono; [|by apply (connect_spec sG g node mcs acc pairs)].
    intros o (es & -> & HF). simpl.
    eapply every_run_mono; [|by apply IH].
    intros o (es' & -> & HF'). exists es'. split; [done|].
    by rewrite <- app_assoc in HF'.
Qed.

(** X22: when no multi-cluster is empty, every run of
    [_combination_phase] returns one edge for each pair of a node and a
    multi-cluster that [_check_node_cluster_con] finds unconnected, in
    the order of the nodes and then of the clusters: the edge goes from
    the node to a member of that cluster, drawn by [random.choice], and
    carries the weight [get_edge] gives. Nothing is emitted for a
    connected pair. *)
Theorem X22_combination_phase (sG : graph) (g : AnnotatedGraph.t)
    (nodes_ : list Z) (multi_clusters : list (list Z)) :
  Forall (λ c, c ≠ []) multi_clusters →
  every_run (_combination_phase get_edge sG g nodes_ multi_clusters)
    (λ o, ∃ es,
        o = Returned es ∧
        Forall2 (λ e nc, e.1.1 = nc.1 ∧ e.1.2 ∈ nc.2 ∧
                         e.2 = get_edge sG e.1.1 e.1.2)
                es (unconnected g nodes_ multi_clusters)).
Proof.
  intros Hne. unfold _combination_phase.
  destruct nodes_ as [|node rest]; simpl bool_decide; cbv iota.
  - exists []. split; [done|]. constructor.
  - apply (connect_all_spec sG g (node :: rest) multi_clusters [] [] Hne).
    constructor.
Qed.
End dwug_phases.

Section dwug_connection.
Import Py Eff Params Sampling.

Lemma X22_combination_phase_witness :
  every_run (_combination_phase (graph := unit) (λ _ _ _, ())
               () (AnnotatedGraph.init 7) [5; 6] [[0; 1; 2; 3; 4]])
    (λ o, ∃ es,
        o = Returned es ∧
        Forall2 (λ e nc, e.1.1 = nc.1 ∧ e.1.2 ∈ nc.2 ∧ e.2 = ())
                es (unconnected (AnnotatedGraph.init 7) [5; 6]
                                [[0; 1; 2; 3; 4]])).
Proof.
  apply (X22_combination_phase (graph := unit) (λ _ _ _, ())).
  by repeat constructor.
Defined.

(** X23: [_check_node_cluster_con] is True exactly when the node and
    some member of the cluster form a pair that has been judged, whatever
    the judgements were: one MISSING judgement on such a pair is enough,
    although it puts no edge into the graph. *)
Theorem X23_check_node_cluster_con :
  ∀ (g : AnnotatedGraph.t) (node : Z) (cluster : list Z),
    (_check_node_cluster_con g node cluster = true ↔
     ∃ c, c ∈ cluster ∧
          is_Some (AnnotatedGraph.edge_added_weights g !! sorted2 node c)) ∧
    (∀ c, c ∈ cluster →
          let g' := AnnotatedGraph.add_edge g node c NaN in
          _check_node_cluster_con g' node cluster = true ∧
          (numeric (AnnotatedGraph.history g (sorted2 node c)) = [] →
           AnnotatedGraph.G_edges g' = AnnotatedGraph.G_edges g)).
Proof.
  assert (H : ∀ (g : AnnotatedGraph.t) (node : Z) (cluster : list Z),
    _check_node_cluster_con g node cluster = true ↔
    ∃ c, c ∈ cluster ∧
         is_Some (AnnotatedGraph.edge_added_weights g !! sorted2 node c)).
  { intros g node cluster. unfold _check_node_cluster_con.
    rewrite existsb_exists. split.
    - intros (c & Hc%list_elem_of_In & Hb). exists c. split; [done|].
      destruct (sorted2 node c) as [u v] eqn:Huv.
      apply bool_decide_eq_true in Hb. unfold AnnotatedGraph.get_edge in Hb.
      pose proof (sorted2_idemp node c) as Hid. rewrite Huv in Hid.
      simpl in Hid. rewrite Hid in Hb.
      destruct (AnnotatedGraph.edge_added_weights g !! (u, v));
        [by eexists | done].
    - intros (c & Hc & [h Hh]). exists c. split; [by apply list_elem_of_In|].
      destruct (sorted2 node c) as [u v] eqn:Huv.
      apply bool_decide_eq_true. unfold AnnotatedGraph.get_edge.
      pose proof (sorted2_idemp node c) as Hid. rewrite Huv in Hid.
      simpl in Hid. rewrite Hid, Hh. by destruct (nanmedian h). }
  intros g node cluster. split; [apply H|].
  intros c Hc g'. split.
  - apply H. exists c. split; [done|]. subst g'.
    unfold AnnotatedGraph.add_edge.
    destruct (sorted2 node c) as [u v].
    destruct (nanmedian _); simpl; rewrite lookup_insert_eq; by eexists.
  - intros Hnum.
    assert (Hn : nanmedian (AnnotatedGraph.history g (sorted2 node c) ++ [NaN])
                 = NaN).
    { apply nanmedian_NaN. rewrite numeric_app, Hnum. done. }
    subst g'. unfold AnnotatedGraph.add_edge, AnnotatedGraph.history in *.
    destruct (sorted2 node c) as [u v]. simpl. by rewrite Hn.
Qed.
End dwug_connection.
